(** * METAR CSV translator: field normalisation, text extraction, record assembly

    A shallow embedding of [scripts/metar_translation/metar_translator.py]
    and the properties of its components:
    - the field normaliser   ([is_missing], [is_trace_token], [parse_numeric_field]),
    - the text extractor     (the five compiled patterns and [parse_metar_text]),
    - the record assembler   ([row_to_record]),
    - the file functions     ([process_csv_to_json], [recurse_and_process]).

    Conventions of the embedding.
    - A Python [str] is a [string]; a character is a code point below 256
      (Latin-1), which covers every character the patterns and the sentinel
      tokens mention.  The character classes [str.isspace], [\d] and [\w] are
      the Unicode ones restricted to that range.
    - [Optional[str]] is [option string].
    - A Python exception of class [Exception] is the outcome [Raised]; a
      [try/except Exception] block is [try_except].
    - A [dict] with string keys is a [gmap string _]: only lookups and key
      membership are observed, never the insertion order.
    - The library functions the program calls but does not define, [float]
      and [pandas.to_datetime], are parameters.
    - The file functions run in a small state-and-exception monad over a
      history of events; the answers of the file system and of the clock
      are parameters that may depend on that history. *)

From Stdlib Require Import ZArith Ascii String List Lia Bool DecimalString.
From stdpp Require Import base option strings gmap fin_maps list.

Set Warnings "-register-all".

(** String concatenation computes under [simpl] once its left operand is a
    constructor. *)
#[local] Arguments String.append !s1 s2 : simpl nomatch.
#[local] Arguments Ascii.eqb : simpl never.

(* ------------------------------------------------------------------ *)
(** ** Outcomes: a value or a raised exception *)
(* ------------------------------------------------------------------ *)

Inductive outcome (A : Type) : Type :=
| Returned (a : A)
| Raised.
Arguments Returned {A} a.
Arguments Raised {A}.

#[global] Instance outcome_ret : MRet outcome := λ A a, Returned a.
#[global] Instance outcome_bind : MBind outcome := λ A B f m,
  match m with
  | Returned a => f a
  | Raised => Raised
  end.
#[global] Instance outcome_fmap : FMap outcome := λ A B f m,
  match m with
  | Returned a => Returned (f a)
  | Raised => Raised
  end.

(** [try: body / except Exception: handler] *)
Definition try_except {A} (body handler : outcome A) : outcome A :=
  match body with
  | Returned a => Returned a
  | Raised => handler
  end.

(* ------------------------------------------------------------------ *)
(** ** Python values that end up in a record *)
(* ------------------------------------------------------------------ *)

(** [VFloat] carries the IEEE-754 binary64 bit pattern, [VTimestamp] the
    nanoseconds since the epoch of a [pandas.Timestamp]. *)
Inductive pyval : Type :=
| VNone
| VBool (b : bool)
| VInt (z : Z)
| VFloat (bits : Z)
| VStr (s : string)
| VTimestamp (ns : Z)
| VList (l : list pyval)
| VDict (d : gmap string pyval).

Definition of_opt (o : option string) : pyval :=
  match o with
  | Some s => VStr s
  | None => VNone
  end.

(** Truth value of an [Optional[str]]: [None] and [""] are false. *)
Definition truthy (o : option string) : bool :=
  match o with
  | None => false
  | Some EmptyString => false
  | Some (String _ _) => true
  end.

(* ------------------------------------------------------------------ *)
(** ** Characters and [str.strip] *)
(* ------------------------------------------------------------------ *)

Definition code (c : ascii) : N := N_of_ascii c.

Definition in_range (lo hi : N) (c : ascii) : bool :=
  ((lo <=? code c) && (code c <=? hi))%N.

(** [str.isspace] below 256: TAB..CR, FS..US, space, NEL, NBSP. *)
Definition isspace (c : ascii) : bool :=
  in_range 9 13 c || in_range 28 32 c || in_range 133 133 c || in_range 160 160 c.

(** [\d]: decimal digits. *)
Definition is_digit (c : ascii) : bool := in_range 48 57 c.

(** [\w]: alphanumeric characters and the underscore. *)
Definition is_word (c : ascii) : bool :=
  in_range 48 57 c || in_range 65 90 c || in_range 95 95 c || in_range 97 122 c
  || in_range 170 170 c || in_range 178 179 c || in_range 181 181 c
  || in_range 185 186 c || in_range 188 190 c || in_range 192 214 c
  || in_range 216 246 c || in_range 248 255 c.

#[global] Arguments isspace : simpl never.
#[global] Arguments is_digit : simpl never.
#[global] Arguments is_word : simpl never.

Fixpoint lstrip (s : string) : string :=
  match s with
  | EmptyString => EmptyString
  | String c s' => if isspace c then lstrip s' else s
  end.

Fixpoint rstrip (s : string) : string :=
  match s with
  | EmptyString => EmptyString
  | String c s' =>
      match rstrip s' with
      | EmptyString => if isspace c then EmptyString else String c EmptyString
      | t => String c t
      end
  end.

Definition strip (s : string) : string := rstrip (lstrip s).

(** [o.strip()] on an [Optional[str]]: attribute access on [None] raises. *)
Definition strip_of (o : option string) : outcome string :=
  match o with
  | Some s => Returned (strip s)
  | None => Raised
  end.

(* ------------------------------------------------------------------ *)
(** ** Helpers (field normaliser) *)
(* ------------------------------------------------------------------ *)

Definition is_missing (s : option string) : bool :=
  match s with
  | None => true
  | Some s =>
      let t := strip s in
      String.eqb t "" || String.eqb t "M" || String.eqb t "NA" || String.eqb t "None"
  end.

Definition is_trace_token (s : option string) : bool :=
  match s with
  | None => false
  | Some s => String.eqb (strip s) "T"
  end.

(** [cast] is any callable; it is applied to the integer [0] and to the
    trimmed string. *)
Definition parse_numeric_field (raw : option string) (cast : pyval → outcome pyval)
  : outcome (pyval * bool) :=
  if is_missing raw then Returned (VNone, false)
  else
    r ← strip_of raw;
    if is_trace_token (Some r) then
      try_except (z ← cast (VInt 0); Returned (z, true))
                 (Returned (VInt 0, true))
    else
      try_except (v ← cast (VStr r); Returned (v, false))
                 (Returned (VNone, false)).

(* ------------------------------------------------------------------ *)
(** ** Regular expressions with Python's backtracking semantics *)
(* ------------------------------------------------------------------ *)

(** The patterns of the program use literals, the classes [\d], [\w] and
    [[+-]], concatenation, ordered alternation, greedy [?], [{m,n}] and [+],
    capturing groups and [\b].  The matcher below tries the choices in
    Python's order (left alternative first, one more repetition first) and
    stops at the first complete match. *)

Inductive cclass : Type :=
| Digit                       (* \d *)
| Word                        (* \w *)
| OneOf (cs : list ascii).    (* [...] *)

Inductive regex : Type :=
| Eps
| Lit (c : ascii)
| Cls (k : cclass)
| Seq (r1 r2 : regex)
| Alt (r1 r2 : regex)
| Opt (r : regex)                    (* r?      *)
| Rep (r : regex) (lo hi : nat)      (* r{lo,hi} *)
| Plus (r : regex)                   (* r+      *)
| Grp (n : nat) (r : regex)          (* n-th capturing group *)
| WordB.                             (* \b      *)

Definition in_class (k : cclass) (c : ascii) : bool :=
  match k with
  | Digit => is_digit c
  | Word => is_word c
  | OneOf cs => existsb (Ascii.eqb c) cs
  end.

(** A literal string as a pattern. *)
Fixpoint lits (s : string) : regex :=
  match s with
  | EmptyString => Eps
  | String c EmptyString => Lit c
  | String c s' => Seq (Lit c) (lits s')
  end.

(** Ordered alternation of several patterns. *)
Fixpoint alts (r : regex) (rs : list regex) : regex :=
  match rs with
  | [] => r
  | r' :: rs' => Alt r (alts r' rs')
  end.

(** One of several literal words, tried in the order given. *)
Definition any_of (ws : list string) : regex :=
  match ws with
  | [] => Cls (OneOf [])
  | w :: ws' => alts (lits w) (map lits ws')
  end.

(** Captured groups, most recent binding first. *)
Definition caps := list (nat * string).

Fixpoint group (cs : caps) (n : nat) : option string :=
  match cs with
  | [] => None
  | (m, s) :: cs' => if Nat.eqb m n then Some s else group cs' n
  end.

(** The first [n] characters of [s]. *)
Fixpoint take_str (n : nat) (s : string) : string :=
  match n, s with
  | S n', String c s' => String c (take_str n' s')
  | _, _ => EmptyString
  end.

(** The text consumed when matching moved from [s] to its suffix [s']. *)
Definition consumed (s s' : string) : string :=
  take_str (String.length s - String.length s') s.

Definition starts_word (s : string) : bool :=
  match s with
  | String c _ => is_word c
  | EmptyString => false
  end.

Definition ends_word (prev : option ascii) : bool :=
  match prev with
  | Some c => is_word c
  | None => false
  end.

(** [\b]: exactly one of the two neighbouring characters is a word
    character; the outside of the string counts as a non-word character. *)
Definition word_boundary (prev : option ascii) (s : string) : bool :=
  xorb (ends_word prev) (starts_word s).

Section Matcher.
Context {A : Type}.

(** A continuation receives the character before the current position, the
    remaining input and the groups captured so far. *)
Definition kont : Type := option ascii → string → caps → option A.

Definition eat (p : ascii → bool) (s : string) (cs : caps) (k : kont) : option A :=
  match s with
  | String c s' => if p c then k (Some c) s' cs else None
  | EmptyString => None
  end.

(** Greedy bounded repetition of [body]: between [lo] and [hi] rounds. *)
Fixpoint repeat_k (body : option ascii → string → caps → kont → option A)
    (lo hi : nat) (prev : option ascii) (s : string) (cs : caps) (k : kont)
    : option A :=
  match hi with
  | 0 => match lo with 0 => k prev s cs | S _ => None end
  | S hi' =>
      let more := body prev s cs (λ p s' cs', repeat_k body (pred lo) hi' p s' cs' k) in
      match lo with
      | S _ => more
      | 0 => match more with
             | Some a => Some a
             | None => k prev s cs
             end
      end
  end.

Fixpoint matchk (r : regex) (prev : option ascii) (s : string) (cs : caps)
    (k : kont) {struct r} : option A :=
  match r with
  | Eps => k prev s cs
  | Lit c => eat (Ascii.eqb c) s cs k
  | Cls cl => eat (in_class cl) s cs k
  | Seq r1 r2 => matchk r1 prev s cs (λ p s' cs', matchk r2 p s' cs' k)
  | Alt r1 r2 =>
      match matchk r1 prev s cs k with
      | Some a => Some a
      | None => matchk r2 prev s cs k
      end
  | Opt r1 =>
      match matchk r1 prev s cs k with
      | Some a => Some a
      | None => k prev s cs
      end
  | Rep r1 lo hi => repeat_k (matchk r1) lo hi prev s cs k
  | Plus r1 => repeat_k (matchk r1) 1 (String.length s) prev s cs k
  | Grp n r1 =>
      matchk r1 prev s cs (λ p s' cs', k p s' ((n, consumed s s') :: cs'))
  | WordB => if word_boundary prev s then k prev s cs else None
  end.
End Matcher.

(** A successful match: the text before it, the matched text, what follows,
    the character just before what follows, and the groups. *)
Record rmatch : Type := RMatch {
  m_before : string;
  m_text : string;
  m_after : string;
  m_last : option ascii;
  m_groups : caps
}.

(** [pattern.match] at the current position. *)
Definition match_here (r : regex) (prev : option ascii) (s : string) : option rmatch :=
  matchk r prev s [] (λ p s' cs, Some (RMatch "" (consumed s s') s' p cs)).

Definition shift (c : ascii) (m : rmatch) : rmatch :=
  RMatch (String c (m_before m)) (m_text m) (m_after m) (m_last m) (m_groups m).

(** [pattern.search]: the leftmost position with a match. *)
Fixpoint search_from (r : regex) (prev : option ascii) (s : string) : option rmatch :=
  match match_here r prev s with
  | Some m => Some m
  | None =>
      match s with
      | EmptyString => None
      | String c s' => shift c <$> search_from r (Some c) s'
      end
  end.

Definition search (r : regex) (s : string) : option rmatch := search_from r None s.

(** [pattern.findall]: successive non-overlapping matches, left to right.
    Every pattern this program hands to [findall] consumes at least one
    character per match; after an empty match the scan moves one character
    on. *)
Fixpoint findall_from (fuel : nat) (r : regex) (prev : option ascii) (s : string)
    : list rmatch :=
  match fuel with
  | 0 => []
  | S fuel' =>
      match search_from r prev s with
      | None => []
      | Some m =>
          m :: match m_text m, m_after m with
               | EmptyString, EmptyString => []
               | EmptyString, String c s' => findall_from fuel' r (Some c) s'
               | String _ _, s' => findall_from fuel' r (m_last m) s'
               end
      end
  end.

Definition findall (r : regex) (s : string) : list rmatch :=
  findall_from (S (String.length s)) r None s.

(** [m.group(n)] as [findall] reports it: the empty string for a group that
    took no part in the match. *)
Definition group_str (m : rmatch) (n : nat) : string :=
  default "" (group (m_groups m) n).

(* ------------------------------------------------------------------ *)
(** ** The compiled patterns *)
(* ------------------------------------------------------------------ *)

Definition d : regex := Cls Digit.

(** [(?P<dir>\d{3}|VRB)(?P<spd>\d{2,3})(G(?P<gst>\d{2,3}))?KT];
    groups: dir = 1, spd = 2, gst = 4. *)
Definition wind_re : regex :=
  Seq (Grp 1 (Alt (Rep d 3 3) (lits "VRB")))
 (Seq (Grp 2 (Rep d 2 3))
 (Seq (Opt (Grp 3 (Seq (Lit "G") (Grp 4 (Rep d 2 3)))))
      (lits "KT"))).

(** [(?P<vis>\d{1,2}(?: ?/?\d)?SM|M?1/4|M1/2)]; group: vis = 1. *)
Definition vis_re : regex :=
  Grp 1 (alts
    (Seq (Rep d 1 2)
    (Seq (Opt (Seq (Opt (Lit " ")) (Seq (Opt (Lit "/")) d)))
         (lits "SM")))
    [ Seq (Opt (Lit "M")) (lits "1/4");
      lits "M1/2" ]).

(** [A(?P<alt>\d{4})]; group: alt = 1. *)
Definition altimeter_re : regex :=
  Seq (Lit "A") (Grp 1 (Rep d 4 4)).

(** [\b(FEW|SCT|BKN|OVC|VV)(\d{3}|\d{3}CB|\d{3}TCU)?\b] *)
Definition cloud_re : regex :=
  Seq WordB
 (Seq (Grp 1 (any_of ["FEW"; "SCT"; "BKN"; "OVC"; "VV"]))
 (Seq (Opt (Grp 2 (alts (Rep d 3 3)
                        [Seq (Rep d 3 3) (lits "CB");
                         Seq (Rep d 3 3) (lits "TCU")])))
      WordB)).

(** The two-letter phenomenon vocabulary, in the order of the pattern. *)
Definition wx_vocabulary : list string :=
  ["DZ"; "RA"; "SN"; "SG"; "IC"; "PL"; "GR"; "GS"; "BR"; "FG";
   "TS"; "SH"; "VA"; "HZ"; "BL"; "DR"; "SQ"; "FS"; "SS"; "DS"].

(** [ (-|\+)?(DZ|RA|...|DS)\b], with the leading space. *)
Definition wxcode_re : regex :=
  Seq (Lit " ")
 (Seq (Opt (Grp 1 (Alt (Lit "-") (Lit "+"))))
 (Seq (Grp 2 (any_of wx_vocabulary))
      WordB)).

(** [[+-]?\w+], the tokeniser of the weather-codes column. *)
Definition wxtoken_re : regex :=
  Seq (Opt (Cls (OneOf ["+"; "-"]%char))) (Plus (Cls Word)).

(* ------------------------------------------------------------------ *)
(** ** [int] on strings *)
(* ------------------------------------------------------------------ *)

Definition digit_value (c : ascii) : Z := Z.of_N (code c) - 48.

(** Decimal digits, single underscores allowed between two digits. *)
Fixpoint int_digits (acc : Z) (after_digit : bool) (s : string) : outcome Z :=
  match s with
  | EmptyString => if after_digit then Returned acc else Raised
  | String c s' =>
      if is_digit c then int_digits (10 * acc + digit_value c) true s'
      else if Ascii.eqb c "_" && after_digit then int_digits acc false s'
      else Raised
  end.

(** [int(s)] in base ten: surrounding whitespace and one sign are accepted. *)
Definition py_int (s : string) : outcome Z :=
  match strip s with
  | String "+" t => int_digits 0 false t
  | String "-" t => Z.opp <$> int_digits 0 false t
  | t => int_digits 0 false t
  end.

(** [int(x)] where [x] may be [None]: that raises. *)
Definition py_int_of (o : option string) : outcome Z :=
  match o with
  | Some s => py_int s
  | None => Raised
  end.

(* ------------------------------------------------------------------ *)
(** ** Lightweight METAR text parsing *)
(* ------------------------------------------------------------------ *)

Definition parse_metar_text (metar : option string) : outcome (gmap string pyval) :=
  if negb (truthy metar) || is_missing metar then Returned ∅
  else
    s ← strip_of metar;
    let out : gmap string pyval := ∅ in
    out ← match search wind_re s with
          | Some m =>
              let out := <["wind_dir" := of_opt (group (m_groups m) 1)]> out in
              spd ← py_int_of (group (m_groups m) 2);
              let out := <["wind_spd_kt" := VInt spd]> out in
              gst ← (if truthy (group (m_groups m) 4)
                     then VInt <$> py_int_of (group (m_groups m) 4)
                     else Returned VNone);
              Returned (<["wind_gust_kt" := gst]> out)
          | None => Returned out
          end;
    let out :=
      match search vis_re s with
      | Some vis => <["visibility_raw" := of_opt (group (m_groups vis) 1)]> out
      | None => out
      end in
    let out :=
      match search altimeter_re s with
      | Some a => <["altimeter_A" := of_opt (group (m_groups a) 1)]> out
      | None => out
      end in
    let clouds := findall cloud_re s in
    let out :=
      match clouds with
      | [] => out
      | _ => <["clouds" :=
               VList (map (λ c, VStr (strip (group_str c 1 +:+ group_str c 2))) clouds)]> out
      end in
    let wx := findall wxcode_re (s +:+ " ") in
    let out :=
      match wx with
      | [] => out
      | _ => <["wx_codes" := VList (map (λ w, VStr (group_str w 2)) wx)]> out
      end in
    Returned out.


(* ------------------------------------------------------------------ *)
(** ** Convert a CSV row into a structured record *)
(* ------------------------------------------------------------------ *)

(** A row maps column names to values; a value is a string or [None] (a
    short line leaves its last columns at [None]). *)
Abbreviation row_t := (gmap string (option string)).
Abbreviation record := (gmap string pyval).

(** [row.get(k)] *)
Definition row_get (row : row_t) (k : string) : option string :=
  match row !! k with
  | Some v => v
  | None => None
  end.

(** [k in m] *)
Definition has_key {V} (m : gmap string V) (k : string) : bool :=
  match m !! k with
  | Some _ => true
  | None => false
  end.

(** [for x in l: s = f(s, x)], stopping at the first exception. *)
Fixpoint for_each {S X} (f : S → X → outcome S) (l : list X) (s : S) : outcome S :=
  match l with
  | [] => Returned s
  | x :: l' => s' ← f s x; for_each f l' s'
  end.

(** [str(i)] for a natural number. *)
Definition str_of_nat (i : nat) : string := NilEmpty.string_of_uint (Nat.to_uint i).

Section Assembler.
(** The builtin [float] and [pandas.to_datetime]. *)
Variable py_float : pyval → outcome pyval.
Variable to_datetime : pyval → outcome pyval.

Definition numeric_specs : list (string * string * (pyval → outcome pyval)) :=
  [ ("tmpf", "tmpf_F", py_float);
    ("dwpf", "dwpf_F", py_float);
    ("relh", "relh_pct", py_float);
    ("drct", "wind_dir_deg", py_float);
    ("sknt", "wind_spd_kt", py_float);
    ("p01i", "precip_1hr_in", py_float);
    ("alti", "altim_inHg", py_float);
    ("mslp", "mslp_hPa", py_float);
    ("vsby", "visibility_sm", py_float);
    ("gust", "gust_kt", py_float);
    ("snowdepth", "snowdepth_in", py_float) ].

(** Lines 119-126: the timestamp. *)
Definition set_valid (row : row_t) (rec : record) : outcome record :=
  let raw_valid := row_get row "valid" in
  let rec := <["valid_raw" := of_opt raw_valid]> rec in
  try_except
    (v ← (if truthy raw_valid then
            t ← strip_of raw_valid;
            if negb (String.eqb t "M") then to_datetime (of_opt raw_valid)
            else Returned VNone
          else Returned VNone);
     Returned (<["valid" := v]> rec))
    (Returned (<["valid" := VNone]> rec)).

(** Lines 143-148: one entry of the numeric table. *)
Definition set_numeric (row : row_t) (rec : record)
    (spec : string * string * (pyval → outcome pyval)) : outcome record :=
  let '(col, outname, cast) := spec in
  if has_key row col then
    '(v, trace) ← parse_numeric_field (row_get row col) cast;
    let rec := <[outname +:+ "_raw" := of_opt (row_get row col)]> rec in
    let rec := <[outname +:+ "_v" := v]> rec in
    let rec := <[outname +:+ "_is_trace" := VBool trace]> rec in
    Returned rec
  else Returned rec.

(** Lines 151-158: the cloud slots 1 to 4. *)
Definition cloud_group (row : row_t) (i : nat) : list pyval :=
  let ctype := row_get row ("skyc" +:+ str_of_nat i) in
  let cheight := row_get row ("skyl" +:+ str_of_nat i) in
  if negb (is_missing ctype) || negb (is_missing cheight)
  then [VDict (<["height_raw" := of_opt cheight]> {[ "type_raw" := of_opt ctype ]})]
  else [].

Definition set_clouds (row : row_t) (rec : record) : record :=
  let cloud_groups := flat_map (cloud_group row) (seq 1 4) in
  match cloud_groups with
  | [] => rec
  | _ => <["cloud_groups_raw" := VList cloud_groups]> rec
  end.

(** Lines 161-164: the weather-codes column. *)
Definition set_wxcodes (row : row_t) (rec : record) : outcome record :=
  let wxc := row_get row "wxcodes" in
  let rec := <["wxcodes_raw" := of_opt wxc]> rec in
  if truthy wxc && negb (is_missing wxc) then
    match wxc with
    | Some s =>
        Returned (<["wxcodes_tokens" :=
                     VList (map (λ m, VStr (m_text m)) (findall wxtoken_re s))]> rec)
    | None => Raised
    end
  else Returned rec.

(** Lines 167-169: the report text. *)
Definition set_metar (row : row_t) (rec : record) : outcome record :=
  let metar_raw := row_get row "metar" in
  let rec := <["metar_raw" := of_opt metar_raw]> rec in
  parsed ← parse_metar_text metar_raw;
  Returned (<["metar_parsed" := VDict parsed]> rec).

(** Lines 172-174: the remaining columns. *)
Definition pass_through (row : row_t) (rec : record) (k : string) : record :=
  if has_key rec k then rec
  else <[k +:+ "_raw" := of_opt (row_get row k)]> rec.

Definition row_to_record (row : row_t) (csv_fieldnames : list string)
  : outcome record :=
  let rec : record := ∅ in
  let rec := <["station" := of_opt (row_get row "station")]> rec in
  rec ← set_valid row rec;
  rec ← for_each (set_numeric row) numeric_specs rec;
  let rec := set_clouds row rec in
  rec ← set_wxcodes row rec;
  rec ← set_metar row rec;
  let rec := fold_left (pass_through row) csv_fieldnames rec in
  Returned rec.
End Assembler.

(* ------------------------------------------------------------------ *)
(** ** Concrete library functions for the worked examples *)
(* ------------------------------------------------------------------ *)

(** The binary64 pattern of an integer of magnitude below [2^53]. *)
Definition float_bits_of_Z (n : Z) : Z :=
  if (n =? 0)%Z then 0%Z
  else
    let a := Z.abs n in
    let e := Z.log2 a in
    Z.lor (if (n <? 0)%Z then Z.shiftl 1 63 else 0)%Z
          (Z.lor (Z.shiftl (e + 1023) 52) (Z.shiftl (a - 2 ^ e) (52 - e)))%Z.

(** [float] on the arguments where the conversion is exact and easy to
    compute: integers and integer literals below [2^53].  Every other
    string raises here, which agrees with Python on the strings that are no
    numeric literal at all; the examples pass no other strings. *)
Definition float_exact (x : pyval) : outcome pyval :=
  match x with
  | VInt z => if (Z.abs z <? 2 ^ 53)%Z then Returned (VFloat (float_bits_of_Z z)) else Raised
  | VStr s =>
      z ← py_int s;
      if (Z.abs z <? 2 ^ 53)%Z then Returned (VFloat (float_bits_of_Z z)) else Raised
  | _ => Raised
  end.

(* ------------------------------------------------------------------ *)
(** ** Notions used in the statements and proofs *)
(* ------------------------------------------------------------------ *)

(** Every character of the string satisfies [p]. *)
Fixpoint all_chars (p : ascii → bool) (s : string) : bool :=
  match s with
  | EmptyString => true
  | String c s' => p c && all_chars p s'
  end.

(** Some character of the string is not whitespace. *)
Definition has_ink (s : string) : bool := negb (all_chars isspace s).

(** The character before the position reached after reading [m]. *)
Fixpoint last_char (prev : option ascii) (m : string) : option ascii :=
  match m with
  | EmptyString => prev
  | String c m' => last_char (Some c) m'
  end.

(** [Matches r prev m rest cs cs']: pattern [r] can match the text [m] when
    [prev] is the character before it and [rest] the input after it, taking
    the captured groups from [cs] to [cs']. *)
Inductive Matches : regex → option ascii → string → string → caps → caps → Prop :=
| M_Eps p rest cs :
    Matches Eps p "" rest cs cs
| M_Lit c p rest cs :
    Matches (Lit c) p (String c "") rest cs cs
| M_Cls k c p rest cs :
    in_class k c = true →
    Matches (Cls k) p (String c "") rest cs cs
| M_Seq r1 r2 p m1 m2 rest cs cs1 cs2 :
    Matches r1 p m1 (m2 +:+ rest) cs cs1 →
    Matches r2 (last_char p m1) m2 rest cs1 cs2 →
    Matches (Seq r1 r2) p (m1 +:+ m2) rest cs cs2
| M_AltL r1 r2 p m rest cs cs' :
    Matches r1 p m rest cs cs' → Matches (Alt r1 r2) p m rest cs cs'
| M_AltR r1 r2 p m rest cs cs' :
    Matches r2 p m rest cs cs' → Matches (Alt r1 r2) p m rest cs cs'
| M_OptSome r p m rest cs cs' :
    Matches r p m rest cs cs' → Matches (Opt r) p m rest cs cs'
| M_OptNone r p rest cs :
    Matches (Opt r) p "" rest cs cs
| M_RepStop r hi p rest cs :
    Matches (Rep r 0 hi) p "" rest cs cs
| M_RepMore r lo hi p m1 m2 rest cs cs1 cs2 :
    Matches r p m1 (m2 +:+ rest) cs cs1 →
    Matches (Rep r (pred lo) hi) (last_char p m1) m2 rest cs1 cs2 →
    Matches (Rep r lo (S hi)) p (m1 +:+ m2) rest cs cs2
| M_Plus r n p m rest cs cs' :
    Matches (Rep r 1 n) p m rest cs cs' → Matches (Plus r) p m rest cs cs'
| M_Grp n r p m rest cs cs' :
    Matches r p m rest cs cs' → Matches (Grp n r) p m rest cs ((n, m) :: cs')
| M_WordB p rest cs :
    word_boundary p rest = true → Matches WordB p "" rest cs cs.

(** What the matcher promises for a pattern [r]: a successful run has read
    some text that [r] can match and then called its continuation. *)
Definition sound_for {A : Type} (r : regex)
    (f : option ascii → string → caps → @kont A → option A) : Prop :=
  ∀ prev s cs k a, f prev s cs k = Some a →
    ∃ m rest cs', s = m +:+ rest ∧ Matches r prev m rest cs cs'
                  ∧ k (last_char prev m) rest cs' = Some a.

(** The entry of the parsed text that comes from the first group of the
    leftmost match of [r] in the trimmed text [s]. *)
Definition found (r : regex) (s : string) : option pyval :=
  (λ m, of_opt (group (m_groups m) 1)) <$> search r s.

(** The [wx_codes] entry for the trimmed text [s]. *)
Definition wx_entry (s : string) : option pyval :=
  match findall wxcode_re (s +:+ " ") with
  | [] => None
  | wx => Some (VList (map (λ w, VStr (group_str w 2)) wx))
  end.

(** The [clouds] entry for the trimmed text [s]. *)
Definition clouds_entry (s : string) : option pyval :=
  match findall cloud_re s with
  | [] => None
  | clouds =>
      Some (VList (map (λ c, VStr (strip (group_str c 1 +:+ group_str c 2))) clouds))
  end.

(** The first four characters when they are digits. *)
Definition digits4 (s : string) : option string :=
  match s with
  | String a (String b (String c (String e _))) =>
      if is_digit a && is_digit b && is_digit c && is_digit e
      then Some (String a (String b (String c (String e ""))))
      else None
  | _ => None
  end.

(** The input starts with [A] and four digits. *)
Definition altimeter_here (s : string) : option string :=
  match s with
  | String c s' => if Ascii.eqb "A" c then digits4 s' else None
  | EmptyString => None
  end.

(** The four digits after the leftmost [A] that four digits follow. *)
Fixpoint first_altimeter (s : string) : option string :=
  match altimeter_here s with
  | Some dg => Some dg
  | None =>
      match s with
      | EmptyString => None
      | String _ s' => first_altimeter s'
      end
  end.

(** An occurrence of [A] and four digits [dg] after the prefix [p]. *)
Definition altimeter_at (text p dg q : string) : Prop :=
  text = p +:+ "A" +:+ dg +:+ q
  ∧ String.length dg = 4 ∧ all_chars is_digit dg = true.

(** The parsed-text entry under [key], when the extractor returns. *)
Definition parsed_entry (metar : string) (key : string) : option pyval :=
  match parse_metar_text (Some metar) with
  | Returned out => out !! key
  | Raised => None
  end.

(** Any character but the space. *)
Definition not_space (c : ascii) : bool := negb (Ascii.eqb c " ").

(** The optional intensity prefix. *)
Definition is_sign (sign : string) : Prop := sign = "" ∨ sign = "-" ∨ sign = "+".

(** The end of the scanned text: the last token and the appended space. *)
Definition wx_tail (sign code : string) : string := " " +:+ sign +:+ code +:+ " ".

(** The three keys a table entry writes. *)
Definition spec_keys (spec : string * string * (pyval → outcome pyval)) : list string :=
  let '(_, outname, _) := spec in
  [outname +:+ "_raw"; outname +:+ "_v"; outname +:+ "_is_trace"].

(** All keys a table can write. *)
Definition numeric_keys (specs : list (string * string * (pyval → outcome pyval)))
  : list string := flat_map spec_keys specs.

(** The record after lines 161-164. *)
Definition wx_rec (row : row_t) (rec : record) : record :=
  let wxc := row_get row "wxcodes" in
  let rec := <["wxcodes_raw" := of_opt wxc]> rec in
  if truthy wxc && negb (is_missing wxc) then
    <["wxcodes_tokens" :=
       VList (map (λ m, VStr (m_text m)) (findall wxtoken_re (default "" wxc)))]> rec
  else rec.

(** The value stored under [valid] (lines 121-126). *)
Definition valid_value (to_datetime : pyval → outcome pyval)
    (raw_valid : option string) : pyval :=
  match raw_valid with
  | Some s =>
      if truthy (Some s) && negb (String.eqb (strip s) "M") then
        match to_datetime (VStr s) with
        | Returned t => t
        | Raised => VNone
        end
      else VNone
  | None => VNone
  end.

(** The record after lines 116-126. *)
Definition start_record (to_datetime : pyval → outcome pyval) (row : row_t) : record :=
  <["valid" := valid_value to_datetime (row_get row "valid")]>
    (<["valid_raw" := of_opt (row_get row "valid")]>
       (<["station" := of_opt (row_get row "station")]> ∅)).

(** The record after lines 151-169, given the one after the numeric loop. *)
Definition before_pass (row : row_t) (rec2 : record) (parsed : gmap string pyval)
  : record :=
  <["metar_parsed" := VDict parsed]>
    (<["metar_raw" := of_opt (row_get row "metar")]>
       (wx_rec row (set_clouds row rec2))).

(** [(\d{4})-(\d{2})-(\d{2}) (\d{2}):(\d{2})], the timestamp format of the
    archive. *)
Definition iso_re : regex :=
  Seq (Grp 1 (Rep d 4 4)) (Seq (Lit "-")
 (Seq (Grp 2 (Rep d 2 2)) (Seq (Lit "-")
 (Seq (Grp 3 (Rep d 2 2)) (Seq (Lit " ")
 (Seq (Grp 4 (Rep d 2 2)) (Seq (Lit ":")
      (Grp 5 (Rep d 2 2))))))))).

(** Days between 1970-01-01 and the given civil date. *)
Definition days_from_civil (y m dd : Z) : Z :=
  let y' := if (m <=? 2)%Z then (y - 1)%Z else y in
  let era := (y' / 400)%Z in
  let yoe := (y' - era * 400)%Z in
  let mp := if (m <=? 2)%Z then (m + 9)%Z else (m - 3)%Z in
  let doy := ((153 * mp + 2) / 5 + dd - 1)%Z in
  let doe := (yoe * 365 + yoe / 4 - yoe / 100 + doy)%Z in
  (era * 146097 + doe - 719468)%Z.

(** A date-time parser for the examples: it accepts the archive's own
    format, [YYYY-MM-DD HH:MM] with optional surrounding whitespace, and
    rejects every other string. *)
Definition datetime_archive (x : pyval) : outcome pyval :=
  match x with
  | VStr s =>
      match match_here iso_re None (strip s) with
      | Some m =>
          match m_after m with
          | EmptyString =>
              y ← py_int_of (group (m_groups m) 1);
              mo ← py_int_of (group (m_groups m) 2);
              dd ← py_int_of (group (m_groups m) 3);
              hh ← py_int_of (group (m_groups m) 4);
              mi ← py_int_of (group (m_groups m) 5);
              if ((1 <=? mo) && (mo <=? 12) && (1 <=? dd) && (dd <=? 31)
                  && (hh <? 24) && (mi <? 60))%Z
              then Returned (VTimestamp
                     ((((days_from_civil y mo dd * 24 + hh) * 60 + mi) * 60)
                      * 1000000000)%Z)
              else Raised
          | String _ _ => Raised
          end
      | None => Raised
      end
  | _ => Raised
  end.

(** The keys written outside the numeric table and the pass-through. *)
Definition reserved_keys : list string :=
  ["station"; "valid_raw"; "valid"; "cloud_groups_raw";
   "wxcodes_raw"; "wxcodes_tokens"; "metar_raw"; "metar_parsed"].

(** A source column that is no output key, does not end like a [_raw] copy
    and differs from its output name. *)
Definition column_ok (keys : list string)
    (spec : string * string * (pyval → outcome pyval)) : Prop :=
  let '(col, outname, _) := spec in
  (col ∉ keys) ∧ (last_char None col ≠ Some "w"%char) ∧ col ≠ outname.

(** The entry of the assembled record under [key]. *)
Definition record_entry (py_float to_datetime : pyval → outcome pyval)
    (row : row_t) (csv_fieldnames : list string) (key : string) : option pyval :=
  match row_to_record py_float to_datetime row csv_fieldnames with
  | Returned rec => rec !! key
  | Raised => None
  end.

(** The row and column list of the examples. *)
Definition example_fields : list string :=
  ["station"; "valid"; "tmpf"; "p01i"; "skyc1"; "skyl1"; "wxcodes"; "metar"; "elevation"].

Definition example_row : row_t :=
  list_to_map
    [("station", Some "JFK"); ("valid", Some "2024-01-05 12:51");
     ("tmpf", Some "35"); ("p01i", Some "T"); ("skyc1", Some "OVC");
     ("skyl1", Some "010"); ("wxcodes", Some "-RA BR");
     ("metar", Some "KJFK 051251Z 21015G25KT 1/2SM -RA BR OVC010 A2992");
     ("elevation", Some "4")].

(** The three wind entries that a wind match [m] contributes
    (lines 85-88). *)
Definition wind_entries (m : rmatch) : gmap string pyval :=
  let spd := match py_int_of (group (m_groups m) 2) with
             | Returned z => VInt z
             | Raised => VNone
             end in
  let gst := if truthy (group (m_groups m) 4) then
               match py_int_of (group (m_groups m) 4) with
               | Returned z => VInt z
               | Raised => VNone
               end
             else VNone in
  <["wind_gust_kt" := gst]>
    (<["wind_spd_kt" := spd]> {[ "wind_dir" := of_opt (group (m_groups m) 1) ]}).

(** The wind entry under [k] for the trimmed text [s]. *)
Definition wind_entry (s k : string) : option pyval :=
  match search wind_re s with
  | Some m => wind_entries m !! k
  | None => None
  end.

(** The entry under [k] of the mapping built from the trimmed text [s]
    (lines 84-104). *)
Definition parsed_lookup (s k : string) : option pyval :=
  if String.eqb k "wx_codes" then wx_entry s
  else if String.eqb k "clouds" then clouds_entry s
  else if String.eqb k "altimeter_A" then found altimeter_re s
  else if String.eqb k "visibility_raw" then found vis_re s
  else wind_entry s k.

(** The keys the extractor can emit. *)
Definition parsed_keys : list string :=
  ["wind_dir"; "wind_spd_kt"; "wind_gust_kt"; "visibility_raw";
   "altimeter_A"; "clouds"; "wx_codes"].

(** The sky-cover abbreviations of [cloud_re]. *)
Definition cloud_covers : list string := ["FEW"; "SCT"; "BKN"; "OVC"; "VV"].

(** A cloud height as [cloud_re] accepts it: nothing, or three digits with
    an optional [CB] or [TCU]. *)
Definition cloud_height (h : string) : Prop :=
  h = "" ∨ ∃ dg sfx, h = dg +:+ sfx ∧ String.length dg = 3
                     ∧ all_chars is_digit dg = true
                     ∧ (sfx = "" ∨ sfx = "CB" ∨ sfx = "TCU").

(** A visibility token as [vis_re] accepts it. *)
Definition visibility_token (t : string) : Prop :=
  t = "1/4" ∨ t = "M1/4" ∨ t = "M1/2"
  ∨ ∃ u, t = u +:+ "SM" ∧ 1 ≤ String.length u ≤ 5
         ∧ match u with String c _ => is_digit c | EmptyString => false end = true.

(** Cloud slot [i] has a type or a height that is not missing (line 155). *)
Definition slot_present (row : row_t) (i : nat) : bool :=
  negb (is_missing (row_get row ("skyc" +:+ str_of_nat i)))
  || negb (is_missing (row_get row ("skyl" +:+ str_of_nat i))).

(** The group appended for slot [i] (line 156). *)
Definition slot_dict (row : row_t) (i : nat) : pyval :=
  VDict (<["height_raw" := of_opt (row_get row ("skyl" +:+ str_of_nat i))]>
           {[ "type_raw" := of_opt (row_get row ("skyc" +:+ str_of_nat i)) ]}).

(** A token of the weather-codes column: an optional sign and one or more
    word characters. *)
Definition wx_token (t : string) : Prop :=
  ∃ sg w, t = sg +:+ w ∧ (sg = "" ∨ sg = "+" ∨ sg = "-")
          ∧ w ≠ "" ∧ all_chars is_word w = true.

(** The cloud slots, in order, for which a group is appended. *)
Definition present_slots (row : row_t) : list nat :=
  List.filter (slot_present row) (seq 1 4).

(** An output name of the numeric table is no key of the record and does
    not end like a [_raw] copy. *)
Definition outname_ok (keys : list string)
    (spec : string * string * (pyval → outcome pyval)) : Prop :=
  let '(_, outname, _) := spec in
  (outname ∉ keys) ∧ last_char None outname ≠ Some "w"%char.

(* ------------------------------------------------------------------ *)
(** ** File processing *)
(* ------------------------------------------------------------------ *)

(** The two file functions act on the outside world: they read a CSV file,
    read the clock, write a JSON file and print a line.  A path is
    represented by the string [str(path)].  What happened so far is kept
    as a history of events, newest first; what the file system and the
    clock answer is a function of that history. *)
Inductive event : Type :=
| EvRead (p : string)                              (* the CSV was opened and read *)
| EvClock                                          (* [datetime.utcnow()] *)
| EvWrite (p : string) (payload : pyval) (ok : bool) (* [json.dump] to [p] *)
| EvPrintOk (json_path : string) (n_rows : nat)    (* the [[OK] wrote ...] line *)
| EvPrintError (p : string).                       (* the [[ERROR] Failed on ...] line *)

(** A computation that reads and extends the history and returns a value
    or raises. *)
Definition io (A : Type) : Type := list event → outcome A * list event.

#[global] Instance io_ret : MRet io := λ A a h, (Returned a, h).
#[global] Instance io_bind : MBind io := λ A B f m h,
  match m h with
  | (Returned a, h') => f a h'
  | (Raised, h') => (Raised, h')
  end.

(** [try: body except Exception: handler]; the handler runs in the world
    the body left behind. *)
Definition io_try {A} (body handler : io A) : io A := λ h,
  match body h with
  | (Returned a, h') => (Returned a, h')
  | (Raised, h') => handler h'
  end.

Definition emit (e : event) : io unit := λ h, (Returned (), e :: h).

Definition io_lift {A} (m : outcome A) : io A := λ h, (m, h).

(** [for x in l: s = f(s, x)] with effects. *)
Fixpoint io_for_each {S X} (f : S → X → io S) (l : list X) (s : S) : io S :=
  match l with
  | [] => mret s
  | x :: l' => s' ← f s x; io_for_each f l' s'
  end.

(** Lines 197-202: the document built for a file, with the clock reading
    [now]. *)
Definition payload_of (csv_path now : string) (records : list record) : pyval :=
  VDict (<["records" := VList (map VDict records)]>
        (<["n_rows" := VInt (Z.of_nat (length records))]>
        (<["generated_at" := VStr (now +:+ "Z")]>
          {[ "source_csv" := VStr csv_path ]}))).

Section Files.
Variable py_float : pyval → outcome pyval.
Variable to_datetime : pyval → outcome pyval.
(** [csv_path.with_suffix(".json")] *)
Variable with_suffix_json : string → string.
(** Opening the CSV and reading it through [csv.DictReader]: the header
    ([None] for an empty file) and the rows, or an exception. *)
Variable read_csv : list event → string → outcome (option (list string) * list row_t).
(** [datetime.utcnow().isoformat()] *)
Variable utcnow_iso : list event → string.
(** Opening the JSON path for writing and [json.dump]. *)
Variable write_json : list event → string → pyval → outcome unit.
(** The paths that [root.rglob(pattern)] yields. *)
Variable rglob : list event → string → string → list string.

Definition io_read (p : string) : io (option (list string) * list row_t) := λ h,
  (read_csv h p, EvRead p :: h).

Definition io_now : io string := λ h, (Returned (utcnow_iso h), EvClock :: h).

Definition io_write (p : string) (payload : pyval) : io unit := λ h,
  match write_json h p payload with
  | Returned u => (Returned u, EvWrite p payload true :: h)
  | Raised => (Raised, EvWrite p payload false :: h)
  end.

(** Lines 183-208. *)
Definition process_csv_to_json (csv_path : string) (json_path : option string)
  : io pyval :=
  let json_path := default (with_suffix_json csv_path) json_path in
  '(fieldnames0, rows) ← io_read csv_path;
  let fieldnames := default [] fieldnames0 in
  records ← io_lift (for_each (λ records row,
                        rec ← row_to_record py_float to_datetime row fieldnames;
                        Returned (records ++ [rec])) rows []);
  now ← io_now;
  let payload := payload_of csv_path now records in
  _ ← io_write json_path payload;
  _ ← emit (EvPrintOk json_path (length records));
  mret payload.

(** Lines 211-224. *)
Definition recurse_and_process (root pattern : string) : io (list pyval) := λ h,
  io_for_each (λ results p,
      io_try (payload ← process_csv_to_json p None; mret (results ++ [payload]))
             (_ ← emit (EvPrintError p); mret results))
    (rglob h root pattern) [] h.
End Files.




Definition reported (h : list event) : list string :=
  rev (flat_map (λ e, match e with EvPrintOk p _ => [p] | _ => [] end) h).

(** A small world for the examples: one readable file with the example
    row, a fixed clock, and a disk that accepts every write. *)
Definition example_read (h : list event) (p : string)
  : outcome (option (list string) * list row_t) :=
  if String.eqb p "kjfk.csv" then Returned (Some example_fields, [example_row])
  else Raised.

Definition example_suffix (p : string) : string :=
  if String.eqb p "kjfk.csv" then "kjfk.json" else p +:+ ".json".

Definition example_clock (h : list event) : string := "2024-01-05T13:00:00".

Definition example_write (h : list event) (p : string) (payload : pyval)
  : outcome unit := Returned ().

Definition example_rglob (h : list event) (root pattern : string) : list string :=
  ["broken.csv"; "kjfk.csv"].

(* ================================================================== *)
(** * Properties *)
(* ================================================================== *)

Module Examples.
(** The worked examples of the documentation. *)
Example wind_example :
  parse_metar_text (Some "21015G25KT")
  = Returned (<["wind_gust_kt" := VInt 25]>
             (<["wind_spd_kt" := VInt 15]> {[ "wind_dir" := VStr "210" ]})).
Proof. vm_compute. reflexivity. Qed.

Example clouds_example :
  parse_metar_text (Some "OVC010 BKN025CB")
  = Returned {[ "clouds" := VList [VStr "OVC010"; VStr "BKN025CB"] ]}.
Proof. vm_compute. reflexivity. Qed.

Example empty_example :
  parse_metar_text None = Returned ∅ ∧ parse_metar_text (Some "") = Returned ∅.
Proof. split; reflexivity. Qed.

Example full_report :
  parse_metar_text
    (Some "KJFK 041251Z VRB05KT 1 1/2SM -RA BR FEW008 OVC015TCU 12/11 A2992 RMK AO2 +TSRA")
  = Returned (list_to_map
      [("wind_dir", VStr "VRB"); ("wind_spd_kt", VInt 5); ("wind_gust_kt", VNone);
       ("visibility_raw", VStr "1/2SM"); ("altimeter_A", VStr "2992");
       ("clouds", VList [VStr "FEW008"; VStr "OVC015TCU"]);
       ("wx_codes", VList [VStr "RA"; VStr "BR"])]).
Proof. vm_compute. reflexivity. Qed.

Example value_example :
  parse_numeric_field (Some "15") float_exact
  = Returned (VFloat 0x402E000000000000, false).
Proof. vm_compute. reflexivity. Qed.

Example one_cloud_group :
  record_entry float_exact datetime_archive example_row example_fields
    "cloud_groups_raw"
  = Some (VList [VDict (list_to_map [("type_raw", VStr "OVC");
                                     ("height_raw", VStr "010")])]).
Proof. vm_compute. reflexivity. Qed.

Example no_cloud_group :
  record_entry float_exact datetime_archive
    {[ "skyc1" := Some "M"; "skyl1" := None ]} ["skyc1"; "skyl1"] "cloud_groups_raw"
  = None.
Proof. vm_compute. reflexivity. Qed.

Example tokens_example :
  record_entry float_exact datetime_archive example_row example_fields
    "wxcodes_tokens"
  = Some (VList [VStr "-RA"; VStr "BR"]).
Proof. vm_compute. reflexivity. Qed.

End Examples.

(* ------------------------------------------------------------------ *)
(** ** Strings and trimming *)
(* ------------------------------------------------------------------ *)

Lemma append_nil_r (s : string) : s +:+ "" = s.
Proof. induction s as [|c s IH]; simpl; [done | by rewrite IH]. Qed.

Lemma append_assoc (a b c : string) : (a +:+ b) +:+ c = a +:+ b +:+ c.
Proof. induction a as [|x a IH]; simpl; [done | by rewrite IH]. Qed.

Lemma append_length (a b : string) :
  String.length (a +:+ b) = String.length a + String.length b.
Proof. induction a as [|x a IH]; simpl; [done | by rewrite IH]. Qed.

Lemma append_inj_l (s a b : string) : s +:+ a = s +:+ b → a = b.
Proof. induction s as [|c s IH]; simpl; [done | intros [= H]; auto]. Qed.

Lemma append_inj_r (a b s : string) : a +:+ s = b +:+ s → a = b.
Proof.
  revert b. induction a as [|x a IH]; intros [|y b] H; simpl in *.
  - done.
  - apply (f_equal String.length) in H. simpl in H. rewrite append_length in H. lia.
  - apply (f_equal String.length) in H. simpl in H. rewrite append_length in H. lia.
  - injection H as -> H. f_equal. by apply IH.
Qed.

Lemma all_chars_app p a b :
  all_chars p (a +:+ b) = all_chars p a && all_chars p b.
Proof. induction a as [|x a IH]; simpl; [done | by rewrite IH, andb_assoc]. Qed.

Lemma lstrip_blank s : all_chars isspace s = true → lstrip s = "".
Proof.
  induction s as [|c s IH]; simpl; [done|].
  intros [Hc Hs]%andb_prop. rewrite Hc. auto.
Qed.

Lemma lstrip_app_blank w s : all_chars isspace w = true → lstrip (w +:+ s) = lstrip s.
Proof.
  induction w as [|c w IH]; simpl; [done|].
  intros [Hc Hw]%andb_prop. rewrite Hc. auto.
Qed.

Lemma lstrip_head s :
  lstrip s = "" ∨ ∃ c t, lstrip s = String c t ∧ isspace c = false.
Proof.
  induction s as [|c s IH]; simpl; [by left|].
  destruct (isspace c) eqn:Hc; [done | right; eauto].
Qed.

Lemma lstrip_split s :
  ∃ w, s = w +:+ lstrip s ∧ all_chars isspace w = true.
Proof.
  induction s as [|c s (w & Hw & Hb)]; simpl.
  - by exists "".
  - destruct (isspace c) eqn:Hc.
    + exists (String c w). simpl. rewrite Hc, Hb. split; [by rewrite <- Hw | done].
    + by exists "".
Qed.

Lemma rstrip_blank s : all_chars isspace s = true → rstrip s = "".
Proof.
  induction s as [|c s IH]; simpl; [done|].
  intros [Hc Hs]%andb_prop. rewrite (IH Hs), Hc. done.
Qed.

Lemma rstrip_cons c s : isspace c = false → rstrip (String c s) = String c (rstrip s).
Proof. intros Hc. simpl. rewrite Hc. by destruct (rstrip s). Qed.

Lemma rstrip_keep c s : rstrip s ≠ "" → rstrip (String c s) = String c (rstrip s).
Proof. intros Hs. simpl. destruct (rstrip s); done. Qed.

Lemma rstrip_idem s : rstrip (rstrip s) = rstrip s.
Proof.
  induction s as [|c s IH]; [done|].
  destruct (rstrip s) as [|x t] eqn:Hs.
  - simpl. rewrite Hs. destruct (isspace c) eqn:Hc; [done|].
    simpl. by rewrite Hc.
  - rewrite rstrip_keep by (by rewrite Hs). rewrite Hs.
    rewrite rstrip_keep by (by rewrite IH). by rewrite IH.
Qed.

Lemma rstrip_split s :
  ∃ w, s = rstrip s +:+ w ∧ all_chars isspace w = true.
Proof.
  induction s as [|c s (w & Hw & Hb)].
  - by exists "".
  - destruct (rstrip s) as [|x t] eqn:Hs.
    + simpl. rewrite Hs. destruct (isspace c) eqn:Hc.
      * exists (String c s). simpl. rewrite Hc. split; [done|].
        rewrite Hw. simpl. done.
      * exists s. simpl. split; [done|]. rewrite Hw. done.
    + exists w. rewrite rstrip_keep by (by rewrite Hs). simpl.
      rewrite Hs. simpl in *. split; [congruence | done].
Qed.

(** Trailing whitespace disappears when something inked precedes it. *)
Lemma rstrip_app_blank s w : all_chars isspace w = true → rstrip (s +:+ w) = rstrip s.
Proof.
  intros Hw. induction s as [|c s IH]; simpl.
  - by apply rstrip_blank.
  - by rewrite IH.
Qed.

(** A string whose last character is inked keeps its right end. *)
Lemma rstrip_app_ink s c : isspace c = false → rstrip (s +:+ String c "") = s +:+ String c "".
Proof.
  intros Hc. induction s as [|x s IH]; simpl.
  - by rewrite Hc.
  - rewrite IH. destruct (s +:+ String c "") eqn:E; [|done].
    destruct s; discriminate.
Qed.

Lemma strip_idem s : strip (strip s) = strip s.
Proof.
  unfold strip. destruct (lstrip_head s) as [-> | (c & t & -> & Hc)]; [done|].
  rewrite rstrip_cons by done. simpl. rewrite Hc.
  rewrite <- rstrip_cons by done. apply rstrip_idem.
Qed.

(** Trimming removes exactly a blank prefix and a blank suffix. *)
Lemma strip_split s :
  ∃ w1 w2, s = w1 +:+ strip s +:+ w2
           ∧ all_chars isspace w1 = true ∧ all_chars isspace w2 = true.
Proof.
  destruct (lstrip_split s) as (w1 & H1 & Hb1).
  destruct (rstrip_split (lstrip s)) as (w2 & H2 & Hb2).
  exists w1, w2. unfold strip. by rewrite <- H2, <- H1.
Qed.

Lemma eqb_true (a b : string) : String.eqb a b = true ↔ a = b.
Proof. apply String.eqb_eq. Qed.

Lemma eqb_false (a b : string) : String.eqb a b = false ↔ a ≠ b.
Proof. apply String.eqb_neq. Qed.

(** The three keys of a numeric field are distinct. *)
Lemma suffix_keys_ne (o a b : string) : a ≠ b → o +:+ a ≠ o +:+ b.
Proof. intros Hab H. by apply append_inj_l in H. Qed.

(* ------------------------------------------------------------------ *)
(** ** The field normaliser *)
(* ------------------------------------------------------------------ *)

(** The missing-value convention, in words: null, or a sentinel after
    trimming. *)
Lemma is_missing_spec (raw : option string) :
  is_missing raw = true ↔
  raw = None ∨ ∃ s, raw = Some s ∧
    (strip s = "" ∨ strip s = "M" ∨ strip s = "NA" ∨ strip s = "None").
Proof.
  destruct raw as [s|]; simpl.
  - rewrite !orb_true_iff, !eqb_true. split.
    + intros H. right. exists s. split; [done|]. tauto.
    + intros [? | (s' & [= <-] & H)]; [done | tauto].
  - split; [by left | done].
Qed.

Lemma lstrip_app_ink t c u x :
  lstrip t = String c u → lstrip (t +:+ x) = String c u +:+ x.
Proof.
  induction t as [|a t IH]; simpl; [done|].
  destruct (isspace a); [done|]. by intros [= -> ->].
Qed.

(** Surrounding whitespace does not change what a token trims to. *)
Lemma strip_padded (w1 t w2 : string) :
  all_chars isspace w1 = true → all_chars isspace w2 = true →
  strip (w1 +:+ t +:+ w2) = strip t.
Proof.
  intros H1 H2. unfold strip. rewrite lstrip_app_blank by done.
  destruct (lstrip_head t) as [E | (c & u & E & Hc)].
  - destruct (lstrip_split t) as (w & Ht & Hw).
    rewrite E in Ht. rewrite append_nil_r in Ht. subst w.
    rewrite E, lstrip_blank; [done|]. by rewrite all_chars_app, Hw, H2.
  - rewrite (lstrip_app_ink t c u w2 E), E. by apply rstrip_app_blank.
Qed.

(** What lines 145-148 store for a column that is present. *)
Lemma set_numeric_present (row : row_t) (rec : record) col outname cast v trace :
  has_key row col = true →
  parse_numeric_field (row_get row col) cast = Returned (v, trace) →
  ∃ rec', set_numeric row rec (col, outname, cast) = Returned rec'
    ∧ rec' !! (outname +:+ "_raw") = Some (of_opt (row_get row col))
    ∧ rec' !! (outname +:+ "_v") = Some v
    ∧ rec' !! (outname +:+ "_is_trace") = Some (VBool trace).
Proof.
  intros Hk Hp. unfold set_numeric. rewrite Hk, Hp. simpl.
  eexists. split; [done|].
  rewrite lookup_insert_ne by (by apply suffix_keys_ne).
  rewrite lookup_insert_ne by (by apply suffix_keys_ne).
  rewrite lookup_insert_eq.
  rewrite lookup_insert_ne by (by apply suffix_keys_ne).
  rewrite !lookup_insert_eq. done.
Qed.

(** C1. A raw token that is null or trims to the empty string, "M", "NA" or
    "None" is normalised to a null value with [is_trace] false, and a record
    that stores the field keeps the raw token as it was. *)
Theorem normalize_missing (raw : option string) (cast : pyval → outcome pyval) :
  (raw = None ∨ ∃ s, raw = Some s ∧
     (strip s = "" ∨ strip s = "M" ∨ strip s = "NA" ∨ strip s = "None")) →
  parse_numeric_field raw cast = Returned (VNone, false)
  ∧ ∀ (row : row_t) (rec : record) col outname,
      has_key row col = true → row_get row col = raw →
      ∃ rec', set_numeric row rec (col, outname, cast) = Returned rec'
        ∧ rec' !! (outname +:+ "_raw") = Some (of_opt raw)
        ∧ rec' !! (outname +:+ "_v") = Some VNone
        ∧ rec' !! (outname +:+ "_is_trace") = Some (VBool false).
Proof.
  intros Hm%is_missing_spec.
  assert (Hp : parse_numeric_field raw cast = Returned (VNone, false)).
  { unfold parse_numeric_field. by rewrite Hm. }
  split; [done|].
  intros row rec col outname Hk <-. by apply set_numeric_present.
Qed.

Lemma normalize_missing_witness :
  strip "  NA " = "NA"
  ∧ parse_numeric_field (Some "  NA ") float_exact = Returned (VNone, false).
Proof.
  split; [reflexivity|].
  apply (normalize_missing (Some "  NA ") float_exact).
  right. exists "  NA ". split; [reflexivity|]. right. right. left. reflexivity.
Defined.

(** C2. A raw token that trims to "T" is normalised to the zero of the
    target type with [is_trace] true, and a record that stores the field
    keeps the raw token as it was. *)
Theorem normalize_trace (raw : string) (cast : pyval → outcome pyval) (zero : pyval) :
  strip raw = "T" →
  cast (VInt 0) = Returned zero →
  is_missing (Some raw) = false
  ∧ parse_numeric_field (Some raw) cast = Returned (zero, true)
  ∧ ∀ (row : row_t) (rec : record) col outname,
      has_key row col = true → row_get row col = Some raw →
      ∃ rec', set_numeric row rec (col, outname, cast) = Returned rec'
        ∧ rec' !! (outname +:+ "_raw") = Some (VStr raw)
        ∧ rec' !! (outname +:+ "_v") = Some zero
        ∧ rec' !! (outname +:+ "_is_trace") = Some (VBool true).
Proof.
  intros Ht Hz.
  assert (Hm : is_missing (Some raw) = false) by (simpl; by rewrite Ht).
  assert (Hp : parse_numeric_field (Some raw) cast = Returned (zero, true)).
  { unfold parse_numeric_field. rewrite Hm. simpl. rewrite Ht. simpl.
    by rewrite Hz. }
  split; [done|]. split; [done|].
  intros row rec col outname Hk Hr.
  destruct (set_numeric_present row rec col outname cast zero true Hk) as (rec' & ? & H1 & ?).
  { by rewrite Hr. }
  exists rec'. by rewrite Hr in H1.
Qed.

Lemma normalize_trace_witness :
  strip " T " = "T" ∧ float_exact (VInt 0) = Returned (VFloat 0)
  ∧ parse_numeric_field (Some " T ") float_exact = Returned (VFloat 0, true).
Proof.
  split; [reflexivity|]. split; [reflexivity|].
  apply (normalize_trace " T " float_exact (VFloat 0)); reflexivity.
Defined.

(** When casting the zero itself raises, the trace value is the integer 0. *)
Lemma trace_zero_fallback (raw : string) (cast : pyval → outcome pyval) :
  strip raw = "T" → cast (VInt 0) = Raised →
  parse_numeric_field (Some raw) cast = Returned (VInt 0, true).
Proof.
  intros Ht Hz. unfold parse_numeric_field.
  assert (Hm : is_missing (Some raw) = false) by (simpl; by rewrite Ht).
  rewrite Hm. simpl. rewrite Ht. simpl. by rewrite Hz.
Qed.

(** A token that is neither missing nor trace is handed to the cast. *)
Lemma normalize_value (raw : string) (cast : pyval → outcome pyval) :
  is_missing (Some raw) = false → is_trace_token (Some raw) = false →
  parse_numeric_field (Some raw) cast
  = match cast (VStr (strip raw)) with
    | Returned v => Returned (v, false)
    | Raised => Returned (VNone, false)
    end.
Proof.
  intros Hm Ht. unfold parse_numeric_field. rewrite Hm. simpl.
  simpl in Ht. rewrite strip_idem, Ht. by destruct (cast _).
Qed.

(** C3. A token that is neither missing nor trace and that the cast rejects
    is normalised to a null value with [is_trace] false; the normaliser
    returns, and a record that stores the field keeps the raw token. *)
Theorem normalize_malformed (raw : string) (cast : pyval → outcome pyval) :
  is_missing (Some raw) = false →
  is_trace_token (Some raw) = false →
  cast (VStr (strip raw)) = Raised →
  parse_numeric_field (Some raw) cast = Returned (VNone, false)
  ∧ ∀ (row : row_t) (rec : record) col outname,
      has_key row col = true → row_get row col = Some raw →
      ∃ rec', set_numeric row rec (col, outname, cast) = Returned rec'
        ∧ rec' !! (outname +:+ "_raw") = Some (VStr raw)
        ∧ rec' !! (outname +:+ "_v") = Some VNone
        ∧ rec' !! (outname +:+ "_is_trace") = Some (VBool false).
Proof.
  intros Hm Ht Hc.
  assert (Hp : parse_numeric_field (Some raw) cast = Returned (VNone, false)).
  { rewrite normalize_value by done. by rewrite Hc. }
  split; [done|].
  intros row rec col outname Hk Hr.
  destruct (set_numeric_present row rec col outname cast VNone false Hk) as (rec' & ? & H1 & ?).
  { by rewrite Hr. }
  exists rec'. by rewrite Hr in H1.
Qed.

Lemma normalize_malformed_witness :
  is_missing (Some " abc") = false ∧ is_trace_token (Some " abc") = false
  ∧ float_exact (VStr (strip " abc")) = Raised
  ∧ parse_numeric_field (Some " abc") float_exact = Returned (VNone, false).
Proof.
  split; [reflexivity|]. split; [reflexivity|]. split; [reflexivity|].
  apply (normalize_malformed " abc" float_exact); reflexivity.
Defined.

(** The normaliser returns on every input, whatever the cast does. *)
Lemma parse_numeric_field_returns (raw : option string) (cast : pyval → outcome pyval) :
  ∃ v trace, parse_numeric_field raw cast = Returned (v, trace).
Proof.
  unfold parse_numeric_field. destruct (is_missing raw) eqn:Hm; [eauto|].
  destruct raw as [s|]; [|done]. simpl.
  destruct (String.eqb _ _); unfold try_except.
  - destruct (cast (VInt 0)); simpl; eauto.
  - destruct (cast (VStr _)); simpl; eauto.
Qed.

(* ------------------------------------------------------------------ *)
(** ** What a successful match looks like *)
(* ------------------------------------------------------------------ *)

Lemma last_char_app p m1 m2 : last_char p (m1 +:+ m2) = last_char (last_char p m1) m2.
Proof. revert p. induction m1 as [|c m1 IH]; intros p; simpl; [done | apply IH]. Qed.

Lemma take_str_app m rest : take_str (String.length m) (m +:+ rest) = m.
Proof. induction m as [|c m IH]; simpl; [by destruct rest | by rewrite IH]. Qed.

Lemma consumed_app m rest : consumed (m +:+ rest) rest = m.
Proof.
  unfold consumed. rewrite append_length.
  replace (String.length m + String.length rest - String.length rest)
    with (String.length m) by lia.
  apply take_str_app.
Qed.

Section Soundness.
Context {A : Type}.
Implicit Types (k : @kont A) (a : A).

Lemma eat_sound (p : ascii → bool) s cs k a :
  eat p s cs k = Some a →
  ∃ c rest, s = String c rest ∧ p c = true ∧ k (Some c) rest cs = Some a.
Proof.
  destruct s as [|c s]; simpl; [done|].
  destruct (p c) eqn:Hp; [eauto | done].
Qed.

Lemma repeat_k_sound r (f : option ascii → string → caps → @kont A → option A) :
  sound_for r f → ∀ hi lo, sound_for (Rep r lo hi) (repeat_k f lo hi).
Proof.
  intros Hf hi. induction hi as [|hi IH]; intros lo prev s cs k a; simpl.
  - destruct lo; [|done]. intros Hk.
    exists "", s, cs. split; [done|]. split; [apply M_RepStop | done].
  - set (more := f prev s cs _).
    assert (Hmore : more = Some a →
      ∃ m rest cs', s = m +:+ rest ∧ Matches (Rep r lo (S hi)) prev m rest cs cs'
                    ∧ k (last_char prev m) rest cs' = Some a).
    { intros (m1 & rest1 & cs1 & -> & Hm1 & Hk)%Hf.
      apply IH in Hk as (m2 & rest & cs2 & -> & Hm2 & Hk).
      exists (m1 +:+ m2), rest, cs2. rewrite append_assoc. split; [done|].
      split; [by econstructor | by rewrite last_char_app]. }
    destruct lo as [|lo]; [|done].
    destruct more as [a'|] eqn:E.
    + intros [= ->]. by apply Hmore.
    + intros Hk. exists "", s, cs. split; [done|]. split; [apply M_RepStop | done].
Qed.

Lemma matchk_sound r : @sound_for A r (matchk r).
Proof.
  induction r as [ |c|cl|r1 IH1 r2 IH2|r1 IH1 r2 IH2|r1 IH1|r1 IH1 lo hi|r1 IH1|n r1 IH1| ];
    intros prev s cs k a; simpl.
  - intros Hk. exists "", s, cs. split; [done|]. split; [constructor | done].
  - intros (c' & rest & -> & Hc & Hk)%eat_sound.
    apply Ascii.eqb_eq in Hc as <-.
    exists (String c ""), rest, cs. split; [done|]. split; [constructor | done].
  - intros (c' & rest & -> & Hc & Hk)%eat_sound.
    exists (String c' ""), rest, cs. split; [done|]. split; [by constructor | done].
  - intros (m1 & rest1 & cs1 & -> & Hm1 & Hk)%IH1.
    apply IH2 in Hk as (m2 & rest & cs2 & -> & Hm2 & Hk).
    exists (m1 +:+ m2), rest, cs2. rewrite append_assoc. split; [done|].
    split; [by econstructor | by rewrite last_char_app].
  - destruct (matchk r1 prev s cs k) as [a'|] eqn:E.
    + intros [= ->]. apply IH1 in E as (m & rest & cs' & -> & Hm & Hk).
      exists m, rest, cs'. split; [done|]. split; [by apply M_AltL | done].
    + intros (m & rest & cs' & -> & Hm & Hk)%IH2.
      exists m, rest, cs'. split; [done|]. split; [by apply M_AltR | done].
  - destruct (matchk r1 prev s cs k) as [a'|] eqn:E.
    + intros [= ->]. apply IH1 in E as (m & rest & cs' & -> & Hm & Hk).
      exists m, rest, cs'. split; [done|]. split; [by apply M_OptSome | done].
    + intros Hk. exists "", s, cs. split; [done|]. split; [apply M_OptNone | done].
  - apply repeat_k_sound, IH1.
  - intros (m & rest & cs' & -> & Hm & Hk)%(repeat_k_sound r1 _ IH1).
    exists m, rest, cs'. split; [done|]. split; [by econstructor | done].
  - intros (m & rest & cs' & -> & Hm & Hk)%IH1. rewrite consumed_app in Hk.
    exists m, rest, ((n, m) :: cs'). split; [done|]. split; [by constructor | done].
  - destruct (word_boundary prev s) eqn:Hb; [|done]. intros Hk.
    exists "", s, cs. split; [done|]. split; [by constructor | done].
Qed.
End Soundness.

(** A match at the current position, unfolded. *)
Lemma match_here_sound r prev s m :
  match_here r prev s = Some m →
  ∃ cs, s = m_text m +:+ m_after m ∧ Matches r prev (m_text m) (m_after m) [] cs
        ∧ m = RMatch "" (m_text m) (m_after m) (last_char prev (m_text m)) cs.
Proof.
  unfold match_here.
  intros (t & rest & cs & -> & Hm & [= <-])%matchk_sound.
  simpl. rewrite consumed_app. by exists cs.
Qed.

(** [search] returns a match found at some position of the input. *)
Lemma match_here_before r prev s m : match_here r prev s = Some m → m_before m = "".
Proof. intros (cs & _ & _ & ->)%match_here_sound. done. Qed.

Lemma search_from_sound r prev s m :
  search_from r prev s = Some m →
  ∃ m0, match_here r (last_char prev (m_before m)) (m_text m +:+ m_after m) = Some m0
        ∧ s = m_before m +:+ m_text m +:+ m_after m
        ∧ m_text m0 = m_text m ∧ m_after m0 = m_after m
        ∧ m_last m0 = m_last m ∧ m_groups m0 = m_groups m.
Proof.
  assert (Hhere : ∀ prev s m, match_here r prev s = Some m →
    ∃ m0, match_here r (last_char prev (m_before m)) (m_text m +:+ m_after m) = Some m0
        ∧ s = m_before m +:+ m_text m +:+ m_after m
        ∧ m_text m0 = m_text m ∧ m_after m0 = m_after m
        ∧ m_last m0 = m_last m ∧ m_groups m0 = m_groups m).
  { intros p s' m' E. exists m'.
    pose proof E as (cs & Hs & _ & _)%match_here_sound.
    rewrite (match_here_before _ _ _ _ E). simpl. by rewrite <- Hs. }
  revert prev m. induction s as [|c s IH]; intros prev m; simpl.
  - destruct (match_here r prev "") as [m0|] eqn:E; [|done].
    intros [= <-]. by apply Hhere.
  - destruct (match_here r prev (String c s)) as [m0|] eqn:E.
    + intros [= <-]. by apply Hhere.
    + destruct (search_from r (Some c) s) as [m1|] eqn:E1; [|done].
      intros [= <-]. apply IH in E1 as (m0 & H0 & -> & ?). simpl.
      exists m0. done.
Qed.

(* ------------------------------------------------------------------ *)
(** ** Digit runs and [int] *)
(* ------------------------------------------------------------------ *)

Ltac invert H := inversion H; subst; clear H.

Lemma rep_class_inv k lo hi p m rest cs cs' :
  Matches (Rep (Cls k) lo hi) p m rest cs cs' →
  cs' = cs ∧ all_chars (in_class k) m = true
  ∧ lo ≤ String.length m ∧ String.length m ≤ hi.
Proof.
  revert lo p m cs. induction hi as [|hi IH]; intros lo p m cs H; invert H.
  - simpl. repeat split; lia.
  - simpl. repeat split; lia.
  - match goal with H : Matches (Cls _) _ _ _ _ _ |- _ => invert H end.
    match goal with H : Matches (Rep _ _ _) _ _ _ _ _ |- _ =>
      apply IH in H as (-> & Hd & Hlo & Hhi) end.
    simpl. rewrite Hd. repeat split; [by rewrite andb_true_r | lia | lia].
Qed.

Lemma digit_not_space c : is_digit c = true → isspace c = false.
Proof. by destruct c as [[] [] [] [] [] [] [] []]. Qed.

Lemma rstrip_inkless s : all_chars (λ c, negb (isspace c)) s = true → rstrip s = s.
Proof.
  induction s as [|c s IH]; simpl; [done|].
  intros [Hc Hs]%andb_prop. rewrite (IH Hs).
  apply negb_true_iff in Hc. rewrite Hc. by destruct s.
Qed.

Lemma lstrip_inkless s : all_chars (λ c, negb (isspace c)) s = true → lstrip s = s.
Proof.
  destruct s as [|c s]; simpl; [done|].
  intros [Hc Hs]%andb_prop. apply negb_true_iff in Hc. by rewrite Hc.
Qed.

Lemma strip_inkless s : all_chars (λ c, negb (isspace c)) s = true → strip s = s.
Proof. intros H. unfold strip. by rewrite lstrip_inkless, rstrip_inkless. Qed.

Lemma all_chars_impl (p q : ascii → bool) s :
  (∀ c, p c = true → q c = true) → all_chars p s = true → all_chars q s = true.
Proof.
  intros Hpq. induction s as [|c s IH]; simpl; [done|].
  intros [Hc Hs]%andb_prop. by rewrite (Hpq c Hc), IH.
Qed.

Lemma int_digits_returns m :
  all_chars is_digit m = true →
  ∀ acc b, m ≠ "" ∨ b = true → ∃ z, int_digits acc b m = Returned z.
Proof.
  induction m as [|c m IH]; simpl; intros Hd acc b Hb.
  - destruct Hb as [? | ->]; [done | eauto].
  - apply andb_prop in Hd as [Hc Hm]. rewrite Hc. apply IH; auto.
Qed.

(** [int] returns on a non-empty run of digits. *)
Lemma py_int_digits m :
  all_chars is_digit m = true → m ≠ "" → ∃ z, py_int m = Returned z.
Proof.
  intros Hd Hne. unfold py_int. rewrite strip_inkless.
  2:{ eapply all_chars_impl; [|done]. intros c Hc.
      by rewrite (digit_not_space c Hc). }
  destruct m as [|c m]; [done|].
  assert (Hc : is_digit c = true) by (simpl in Hd; by apply andb_prop in Hd as [? _]).
  assert (∃ z, int_digits 0 false (String c m) = Returned z) as [z Hz]
    by (apply int_digits_returns; auto).
  destruct c as [[] [] [] [] [] [] [] []]; try discriminate Hc; eauto.
Qed.

(* ------------------------------------------------------------------ *)
(** ** The text extractor returns *)
(* ------------------------------------------------------------------ *)

(** Take a derivation for a concrete pattern apart. *)
Ltac invert_matches :=
  repeat match goal with
  | H : Matches (Seq _ _) _ _ _ _ _ |- _ => invert H
  | H : Matches (Grp _ _) _ _ _ _ _ |- _ => invert H
  | H : Matches (Alt _ _) _ _ _ _ _ |- _ => invert H
  | H : Matches (Opt _) _ _ _ _ _ |- _ => invert H
  | H : Matches (Lit _) _ _ _ _ _ |- _ => invert H
  | H : Matches Eps _ _ _ _ _ |- _ => invert H
  | H : Matches WordB _ _ _ _ _ |- _ => invert H
  | H : Matches (Rep (Cls _) _ _) _ _ _ _ _ |- _ =>
      apply rep_class_inv in H as (-> & ? & ? & ?)
  end.

Lemma long_nonempty (x : string) : 2 ≤ String.length x → x ≠ "".
Proof. destruct x; simpl; [lia | done]. Qed.

(** The groups of a wind match: a speed of two or three digits, and a gust
    that is either absent or two or three digits. *)
Lemma wind_groups prev s m :
  match_here wind_re prev s = Some m →
  (∃ spd, group (m_groups m) 2 = Some spd
          ∧ all_chars is_digit spd = true ∧ spd ≠ "")
  ∧ (group (m_groups m) 4 = None
     ∨ ∃ gst, group (m_groups m) 4 = Some gst
              ∧ all_chars is_digit gst = true ∧ gst ≠ "").
Proof.
  intros (cs & _ & H & ->)%match_here_sound. simpl.
  destruct m as [b t a l g]; simpl in *. clear b l g.
  unfold wind_re, d in H. simpl lits in H.
  invert_matches; simpl.
  all: split; [eexists; split; [done|]; split; [done | by apply long_nonempty] |].
  all: try (by left).
  all: right; eexists; split; [done|]; split; [done | by apply long_nonempty].
Qed.

Lemma bind_returned {A B} (x : A) (f : A → outcome B) : (Returned x ≫= f) = f x.
Proof. done. Qed.

Lemma wind_groups_search s m :
  search wind_re s = Some m →
  (∃ spd z, group (m_groups m) 2 = Some spd ∧ py_int spd = Returned z)
  ∧ (truthy (group (m_groups m) 4) = false
     ∨ ∃ gst z, group (m_groups m) 4 = Some gst ∧ py_int gst = Returned z).
Proof.
  intros (m0 & H0 & _ & _ & _ & _ & <-)%search_from_sound.
  apply wind_groups in H0 as [(spd & -> & Hd & Hne) Hg].
  split.
  - destruct (py_int_digits spd Hd Hne) as [z Hz]. eauto.
  - destruct Hg as [-> | (gst & -> & Hd' & Hne')]; [by left|].
    destruct (py_int_digits gst Hd' Hne') as [z Hz]. eauto.
Qed.

(** On a text that is not missing the extractor returns, and each of these
    keys is present exactly when its pattern matched the trimmed text. *)
Lemma parse_metar_text_fields (text : string) :
  truthy (Some text) = true → is_missing (Some text) = false →
  ∃ out, parse_metar_text (Some text) = Returned out
    ∧ out !! "visibility_raw" = found vis_re (strip text)
    ∧ out !! "altimeter_A" = found altimeter_re (strip text)
    ∧ out !! "clouds" = clouds_entry (strip text)
    ∧ out !! "wx_codes" = wx_entry (strip text).
Proof.
  intros Ht Hm. unfold parse_metar_text.
  rewrite Ht, Hm. simpl negb. simpl orb. cbv iota.
  change (strip_of (Some text)) with (Returned (strip text)).
  rewrite bind_returned. set (s := strip text).
  assert (Hrest : ∀ out0 : gmap string pyval,
    out0 !! "visibility_raw" = None → out0 !! "altimeter_A" = None →
    out0 !! "clouds" = None → out0 !! "wx_codes" = None →
    ∀ out,
      out = (let out := match search vis_re s with
                 | Some vis => <["visibility_raw" := of_opt (group (m_groups vis) 1)]> out0
                 | None => out0
                 end in
       let out := match search altimeter_re s with
                 | Some a => <["altimeter_A" := of_opt (group (m_groups a) 1)]> out
                 | None => out
                 end in
       let clouds := findall cloud_re s in
       let out := match clouds with
                 | [] => out
                 | _ => <["clouds" := VList (map (λ c, VStr (strip (group_str c 1 +:+ group_str c 2))) clouds)]> out
                 end in
       let wx := findall wxcode_re (s +:+ " ") in
       match wx with
       | [] => out
       | _ => <["wx_codes" := VList (map (λ w, VStr (group_str w 2)) wx)]> out
       end) →
    out !! "visibility_raw" = found vis_re s
    ∧ out !! "altimeter_A" = found altimeter_re s
    ∧ out !! "clouds" = clouds_entry s
    ∧ out !! "wx_codes" = wx_entry s).
  { intros out0 Hv Ha Hc Hw out ->.
    unfold found, wx_entry, clouds_entry.
    destruct (search vis_re s), (search altimeter_re s),
      (findall cloud_re s), (findall wxcode_re (s +:+ " ")); simpl;
      by simplify_map_eq. }
  destruct (search wind_re s) as [m|] eqn:E.
  - apply wind_groups_search in E as [(spd & z & -> & Hz) Hg]. simpl.
    rewrite Hz. simpl.
    destruct Hg as [-> | (gst & z' & -> & Hz')]; simpl.
    + eexists. split; [done|]. eapply Hrest; cycle 4; [reflexivity | done..].
    + destruct gst; simpl.
      * eexists. split; [done|]. eapply Hrest; cycle 4; [reflexivity | done..].
      * rewrite Hz'. simpl. eexists. split; [done|]. eapply Hrest; cycle 4; [reflexivity | done..].
  - simpl. eexists. split; [done|]. eapply Hrest; cycle 4; [reflexivity | done..].
Qed.

(** The extractor returns on every input. *)
Lemma parse_metar_text_returns (metar : option string) :
  ∃ out, parse_metar_text metar = Returned out.
Proof.
  destruct (negb (truthy metar) || is_missing metar) eqn:E.
  - exists ∅. unfold parse_metar_text. by rewrite E.
  - apply orb_false_elim in E as [Ht Hm]. apply negb_false_iff in Ht.
    destruct metar as [text|]; [|done].
    destruct (parse_metar_text_fields text Ht Hm) as (out & ? & _). eauto.
Qed.

(** On a missing text the extractor yields the empty mapping. *)
Lemma parse_metar_text_missing (metar : option string) :
  truthy metar = false ∨ is_missing metar = true → parse_metar_text metar = Returned ∅.
Proof.
  intros H. unfold parse_metar_text.
  destruct H as [-> | ->]; [done | by rewrite orb_true_r].
Qed.

(* ------------------------------------------------------------------ *)
(** ** The altimeter entry *)
(* ------------------------------------------------------------------ *)

Lemma consumed_refl s : consumed s s = "".
Proof. unfold consumed. rewrite Nat.sub_diag. by destruct s. Qed.

Lemma consumed_cons c s s' :
  String.length s' ≤ String.length s →
  consumed (String c s) s' = String c (consumed s s').
Proof.
  intros H. unfold consumed. simpl String.length.
  replace (S (String.length s) - String.length s')
    with (S (String.length s - String.length s')) by lia.
  done.
Qed.

Lemma altimeter_match_here prev s :
  (λ m, group (m_groups m) 1) <$> match_here altimeter_re prev s
  = Some <$> altimeter_here s.
Proof.
  unfold match_here, altimeter_re, d.
  destruct s as [|c0 s]; [done|]. simpl.
  destruct (Ascii.eqb "A" c0); [|done].
  destruct s as [|c1 [|c2 [|c3 [|c4 rest]]]]; simpl; try done;
    repeat (match goal with |- context [is_digit ?c] => destruct (is_digit c) end;
            simpl; try done).
  rewrite !consumed_cons, consumed_refl by (simpl; lia). done.
Qed.

Lemma altimeter_search prev s :
  (λ m, group (m_groups m) 1) <$> search_from altimeter_re prev s
  = Some <$> first_altimeter s.
Proof.
  revert prev. induction s as [|c s IH]; intros prev.
  - simpl. pose proof (altimeter_match_here prev "") as H.
    destruct (match_here altimeter_re prev ""); simpl in *; done.
  - pose proof (altimeter_match_here prev (String c s)) as H.
    cbn [search_from first_altimeter].
    destruct (match_here altimeter_re prev (String c s)) as [m|];
      destruct (altimeter_here (String c s)); simpl in H; try done.
    rewrite <- IH with (prev := Some c).
    by destruct (search_from altimeter_re (Some c) s).
Qed.

Lemma found_altimeter s :
  found altimeter_re s = VStr <$> first_altimeter s.
Proof.
  unfold found, search. pose proof (altimeter_search None s) as H.
  destruct (search_from altimeter_re None s) as [m|], (first_altimeter s);
    simpl in *; try done.
  injection H as ->. done.
Qed.

Lemma digits4_spec s dg :
  digits4 s = Some dg ↔
  ∃ q, s = dg +:+ q ∧ String.length dg = 4 ∧ all_chars is_digit dg = true.
Proof.
  split.
  - destruct s as [|a [|b [|c [|e q]]]]; simpl; try done.
    destruct (is_digit a) eqn:Ha, (is_digit b) eqn:Hb, (is_digit c) eqn:Hc,
      (is_digit e) eqn:He; simpl; try done.
    intros [= <-]. exists q. simpl. by rewrite Ha, Hb, Hc, He.
  - intros (q & -> & Hl & Hd).
    destruct dg as [|a [|b [|c [|e [|]]]]]; simpl in Hl; try lia.
    simpl in *.
    apply andb_prop in Hd as [Ha Hd]. apply andb_prop in Hd as [Hb Hd].
    apply andb_prop in Hd as [Hc Hd]. apply andb_prop in Hd as [He _].
    by rewrite Ha, Hb, Hc, He.
Qed.

Lemma altimeter_here_spec s dg :
  altimeter_here s = Some dg ↔ ∃ q, altimeter_at s "" dg q.
Proof.
  unfold altimeter_at. destruct s as [|c s]; simpl.
  - split; [done | by intros (? & ? & _)].
  - destruct (Ascii.eqb_spec "A"%char c) as [<- | Hne].
    + rewrite digits4_spec. split.
      * intros (q & -> & ?). by exists q.
      * intros (q & [= ->] & ?). by exists q.
    + split; [done | intros (q & [= ?] & _); congruence].
Qed.

Lemma altimeter_at_cons c s p dg q :
  altimeter_at (String c s) (String c p) dg q ↔ altimeter_at s p dg q.
Proof.
  unfold altimeter_at. simpl. split.
  - intros ([= ?] & ?). done.
  - intros (-> & ?). done.
Qed.

Lemma altimeter_at_inv c s p dg q :
  altimeter_at (String c s) p dg q →
  p = "" ∨ ∃ p0, p = String c p0 ∧ altimeter_at s p0 dg q.
Proof.
  destruct p as [|x p0]; [by left|]. intros H. right. exists p0.
  assert (x = c) as ->.
  { destruct H as (H & _). simpl in H. congruence. }
  split; [done|]. by apply (altimeter_at_cons c).
Qed.

(** [first_altimeter] finds the leftmost occurrence. *)
Lemma first_altimeter_spec s dg :
  first_altimeter s = Some dg ↔
  ∃ p q, altimeter_at s p dg q
         ∧ ∀ p' dg' q', altimeter_at s p' dg' q' → String.length p ≤ String.length p'.
Proof.
  revert dg. induction s as [|c s IH]; intros dg.
  - simpl. split; [done|].
    intros (p & q & (H & _) & _). destruct p; discriminate.
  - cbn [first_altimeter].
    destruct (altimeter_here (String c s)) as [dg0|] eqn:E.
    + split.
      * intros [= ->]. apply altimeter_here_spec in E as [q Hq].
        exists "", q. split; [done|]. simpl. lia.
      * intros (p & q & Hp & Hleft).
        pose proof E as [q0 Hq0]%altimeter_here_spec.
        pose proof (Hleft _ _ _ Hq0) as Hlen. destruct p; simpl in Hlen; [|lia].
        assert (altimeter_here (String c s) = Some dg) as Hdg
          by (apply altimeter_here_spec; eauto).
        congruence.
    + assert (Hno : ∀ dg' q', ¬ altimeter_at (String c s) "" dg' q').
      { intros dg' q' H.
        assert (altimeter_here (String c s) = Some dg') as Hdg
          by (apply altimeter_here_spec; eauto).
        congruence. }
      rewrite IH. split.
      * intros (p & q & Hp & Hleft). exists (String c p), q.
        split; [by apply altimeter_at_cons|].
        intros p' dg' q' H'.
        pose proof H' as [-> | (p0 & -> & H0)]%altimeter_at_inv.
        -- by destruct (Hno dg' q').
        -- simpl. apply Hleft in H0. lia.
      * intros (p & q & Hp & Hleft).
        pose proof Hp as [-> | (p0 & -> & H0)]%altimeter_at_inv.
        -- by destruct (Hno dg q).
        -- exists p0, q. split; [done|]. intros p' dg' q' H'.
           apply (altimeter_at_cons c) in H'. apply Hleft in H'. simpl in H'. lia.
Qed.

(** ... and fails only when there is no occurrence at all. *)
Lemma first_altimeter_complete s p dg q :
  altimeter_at s p dg q → is_Some (first_altimeter s).
Proof.
  revert p. induction s as [|c s IH]; intros p H.
  - destruct H as (H & _). destruct p; discriminate.
  - cbn [first_altimeter].
    destruct (altimeter_here (String c s)) eqn:E; [done|].
    pose proof H as [-> | (p0 & -> & H0)]%altimeter_at_inv; [|by eapply IH].
    assert (altimeter_here (String c s) = Some dg) as Hdg
      by (apply altimeter_here_spec; eauto).
    congruence.
Qed.

Lemma space_not_digit c : isspace c = true → is_digit c = false.
Proof. by destruct c as [[] [] [] [] [] [] [] []]. Qed.

Lemma space_not_A c : isspace c = true → Ascii.eqb "A" c = false.
Proof. by destruct c as [[] [] [] [] [] [] [] []]. Qed.

Lemma digits4_blank w : all_chars isspace w = true → digits4 w = None.
Proof.
  destruct w as [|a [|b [|c [|e q]]]]; simpl; try done.
  intros [Ha _]%andb_prop. by rewrite (space_not_digit a Ha).
Qed.

Lemma digits4_rblank s w : all_chars isspace w = true → digits4 (s +:+ w) = digits4 s.
Proof.
  intros Hw. pose proof (digits4_blank w Hw) as H0.
  destruct w as [|x w]; [by rewrite append_nil_r|].
  simpl in Hw. apply andb_prop in Hw as [Hx Hw]. apply space_not_digit in Hx.
  destruct s as [|a [|b [|c [|e q]]]]; simpl; try done.
  - destruct w as [|? [|? ?]]; try done.
    by rewrite Hx, !andb_false_r.
  - destruct w as [|? ?]; try done.
    by rewrite Hx, !andb_false_r.
  - by rewrite Hx, !andb_false_r.
Qed.

Lemma first_altimeter_lblank w s :
  all_chars isspace w = true → first_altimeter (w +:+ s) = first_altimeter s.
Proof.
  induction w as [|c w IH]; [done|]. simpl all_chars.
  intros [Hc Hw]%andb_prop. simpl String.append. cbn [first_altimeter altimeter_here].
  rewrite (space_not_A c Hc). auto.
Qed.

Lemma first_altimeter_rblank s w :
  all_chars isspace w = true → first_altimeter (s +:+ w) = first_altimeter s.
Proof.
  intros Hw. induction s as [|c s IH].
  - simpl String.append. rewrite <- (append_nil_r w).
    by rewrite first_altimeter_lblank.
  - simpl String.append. cbn [first_altimeter altimeter_here].
    by rewrite digits4_rblank, IH.
Qed.

Lemma first_altimeter_strip text : first_altimeter (strip text) = first_altimeter text.
Proof.
  destruct (strip_split text) as (w1 & w2 & H & H1 & H2).
  rewrite H at 2. by rewrite first_altimeter_lblank, first_altimeter_rblank.
Qed.

(** The altimeter entry of the parsed text, for any text. *)
Lemma first_altimeter_entry (text : string) :
  ∃ out, parse_metar_text (Some text) = Returned out
         ∧ out !! "altimeter_A" = VStr <$> first_altimeter text.
Proof.
  destruct (negb (truthy (Some text)) || is_missing (Some text)) eqn:E.
  - exists ∅. split.
    + unfold parse_metar_text. by rewrite E.
    + rewrite lookup_empty, <- first_altimeter_strip.
      apply orb_prop in E as [E | E].
      * destruct text; [done | discriminate].
      * simpl in E. rewrite !orb_true_iff, !eqb_true in E.
        destruct E as [[[-> | ->] | ->] | ->]; done.
  - apply orb_false_elim in E as [Ht Hm]. apply negb_false_iff in Ht.
    destruct (parse_metar_text_fields text Ht Hm) as (out & Hout & _ & Ha & _).
    exists out. split; [done|].
    by rewrite Ha, found_altimeter, first_altimeter_strip.
Qed.

(** C5, as the code has it.  The extractor emits an altimeter entry exactly
    when the text contains the letter A immediately followed by four digits,
    wherever that is and whatever follows (more digits included); the entry
    is the string of the four digits after the leftmost such A, undivided. *)
Theorem altimeter_entry (text : string) :
  ∃ out, parse_metar_text (Some text) = Returned out
    ∧ (is_Some (out !! "altimeter_A") ↔ ∃ p dg q, altimeter_at text p dg q)
    ∧ (∀ v, out !! "altimeter_A" = Some v ↔
         ∃ p dg q, altimeter_at text p dg q ∧ v = VStr dg
           ∧ ∀ p' dg' q', altimeter_at text p' dg' q' →
                          String.length p ≤ String.length p').
Proof.
  destruct (first_altimeter_entry text) as (out & Hout & Ha).
  exists out. split; [done|]. rewrite Ha. split.
  - split.
    + intros [v Hv]. destruct (first_altimeter text) as [dg|] eqn:E; [|done].
      apply first_altimeter_spec in E as (p & q & Hp & _). eauto.
    + intros (p & dg & q & H). apply first_altimeter_complete in H as [dg' ->].
      by eexists.
  - intros v. split.
    + destruct (first_altimeter text) as [dg|] eqn:E; [|done].
      intros [= <-]. apply first_altimeter_spec in E as (p & q & Hp & Hl).
      exists p, dg, q. done.
    + intros (p & dg & q & Hp & -> & Hl).
      assert (first_altimeter text = Some dg) as -> by (apply first_altimeter_spec; eauto).
      done.
Qed.

(** The claim as written asks for exactly four digits: an A followed by four
    digits and no fifth.  The text "A12345" has no such place, yet the
    extractor emits the entry "1234". *)
Lemma altimeter_five_digits :
  parse_metar_text (Some "A12345") = Returned {[ "altimeter_A" := VStr "1234" ]}
  ∧ ¬ ∃ p dg q, altimeter_at "A12345" p dg q
                ∧ match q with String c _ => is_digit c | EmptyString => false end = false.
Proof.
  split; [vm_compute; reflexivity|].
  intros (p & dg & q & (H & Hl & _) & Hq).
  destruct p as [|c0 p].
  - destruct dg as [|a [|b [|c [|e [|]]]]]; simpl in Hl; try lia.
    simpl in H. injection H as <- <- <- <- <-. discriminate Hq.
  - injection H as _ H.
    repeat (destruct p as [|? p]; [discriminate H | injection H as _ H]).
    destruct p; discriminate H.
Qed.

(* ------------------------------------------------------------------ *)
(** ** The visibility entry *)
(* ------------------------------------------------------------------ *)

(** C6. The quarter-mile token is stored with or without the [M] prefix, and
    the half-mile token with it; the half-mile token without the prefix is
    stored only when [SM] follows it, through the statute-mile alternative.
    A bare "1/2" yields no visibility entry at all: the third alternative of
    [vis_re] reads [M1/2] where its neighbour reads [M?1/4]. *)
Theorem visibility_half_mile_without_M :
  parsed_entry "KXYZ 1/4 OVC002" "visibility_raw" = Some (VStr "1/4")
  ∧ parsed_entry "KXYZ M1/4 OVC002" "visibility_raw" = Some (VStr "M1/4")
  ∧ parsed_entry "KXYZ M1/2 OVC002" "visibility_raw" = Some (VStr "M1/2")
  ∧ parsed_entry "KXYZ 1/2SM OVC002" "visibility_raw" = Some (VStr "1/2SM")
  ∧ parsed_entry "KXYZ 1/2 OVC002" "visibility_raw" = None
  ∧ parse_metar_text (Some "KXYZ 1/2 OVC002")
    = Returned {[ "clouds" := VList [VStr "OVC002"] ]}.
Proof. repeat split; vm_compute; reflexivity. Qed.

(* ------------------------------------------------------------------ *)
(** ** Weather-phenomenon codes at the end of the text *)
(* ------------------------------------------------------------------ *)

(** At the last token the pattern matches, and captures the code. *)
Lemma wx_final prev sign code :
  is_sign sign → In code wx_vocabulary →
  ∃ m, match_here wxcode_re prev (wx_tail sign code) = Some m
       ∧ m_text m = " " +:+ sign +:+ code ∧ m_after m = " "
       ∧ group (m_groups m) 2 = Some code.
Proof.
  intros Hs Hc. unfold wx_vocabulary in Hc. simpl in Hc.
  destruct Hs as [-> | [-> | ->]];
    repeat (destruct Hc as [<- | Hc];
            [eexists; split; [vm_compute; reflexivity | by vm_compute] |]);
    done.
Qed.

(** Nothing matches in the appended space alone. *)
Lemma wx_nothing_left prev : search_from wxcode_re prev " " = None.
Proof. by vm_compute. Qed.

(** Any match is a space followed by characters that are not spaces. *)
Lemma wx_shape prev s m :
  match_here wxcode_re prev s = Some m →
  ∃ x, m_text m = String " " x ∧ all_chars not_space x = true.
Proof.
  intros (cs & _ & H & _)%match_here_sound.
  destruct m as [b t a l g]; simpl in *. clear b l g.
  unfold wxcode_re, any_of, wx_vocabulary in H. simpl in H.
  invert_matches; eexists; (split; [reflexivity | by vm_compute]).
Qed.

(** A run without spaces that starts where [q1] starts and is followed by
    more input lies within [q1] when a space follows [q1]. *)
Lemma inkrun_within x after q1 t :
  x +:+ after = q1 +:+ String " " t → all_chars not_space x = true →
  ∃ q', q1 = x +:+ q' ∧ after = q' +:+ String " " t.
Proof.
  revert q1. induction x as [|c x IH]; intros q1; simpl.
  - intros -> _. by exists q1.
  - intros H [Hc Hx]%andb_prop. destruct q1 as [|c' q2]; simpl in H.
    + injection H as -> _. done.
    + injection H as -> H. destruct (IH q2 H Hx) as (q' & -> & ->). by exists q'.
Qed.

(** A match that starts before the last token ends before it. *)
Lemma wx_match_within prev q t m :
  q ≠ "" →
  match_here wxcode_re prev (q +:+ String " " t) = Some m →
  m_text m ≠ ""
  ∧ ∃ q', m_after m = q' +:+ String " " t ∧ String.length q' < String.length q.
Proof.
  intros Hq E. pose proof E as (x & Hx & Hink)%wx_shape.
  apply match_here_sound in E as (cs & Hs & _ & _).
  rewrite Hx in *. split; [done|].
  destruct q as [|c q1]; [done|]. simpl in Hs. injection Hs as -> Hs.
  destruct (inkrun_within _ _ _ _ (eq_sym Hs) Hink) as (q' & -> & ->).
  exists q'. split; [done|]. simpl. rewrite append_length. lia.
Qed.

Lemma shift_fields c m :
  m_text (shift c m) = m_text m ∧ m_after (shift c m) = m_after m
  ∧ m_last (shift c m) = m_last m ∧ m_groups (shift c m) = m_groups m.
Proof. done. Qed.

(** The leftmost match in a text that ends with a phenomenon code: either
    the last token itself, or a match that ends before it. *)
Lemma wx_search_step sign code q prev :
  is_sign sign → In code wx_vocabulary →
  ∃ m, search_from wxcode_re prev (q +:+ wx_tail sign code) = Some m
       ∧ m_text m ≠ ""
       ∧ ((m_after m = " " ∧ group (m_groups m) 2 = Some code)
          ∨ ∃ q', m_after m = q' +:+ wx_tail sign code
                  ∧ String.length q' < String.length q).
Proof.
  intros Hs Hc. revert prev. induction q as [|c q IH]; intros prev.
  - destruct (wx_final prev sign code Hs Hc) as (m & E & Ht & Ha & Hg).
    exists m. simpl String.append. unfold wx_tail in *. simpl String.append in *.
    cbn [search_from]. rewrite E. rewrite Ht. split; [done|]. split; [done | by left].
  - simpl String.append. cbn [search_from].
    destruct (match_here wxcode_re prev (String c (q +:+ wx_tail sign code)))
      as [m|] eqn:E.
    + exists m. split; [done|].
      apply (wx_match_within prev (String c q) (sign +:+ code +:+ " ")) in E
        as (Ht & q' & Ha & Hl); [|done].
      split; [done|]. right. by exists q'.
    + destruct (IH (Some c)) as (m & -> & Ht & Hm). exists (shift c m).
      split; [done|]. split; [done|]. simpl.
      destruct Hm as [? | (q' & ? & ?)]; [by left|]. right. exists q'.
      split; [done | lia].
Qed.

(** [findall] over such a text ends with the match of the last token. *)
Lemma wx_findall_last sign code :
  is_sign sign → In code wx_vocabulary →
  ∀ n q prev fuel,
    String.length q < n → String.length q + 2 ≤ fuel →
    ∃ ms mf, findall_from fuel wxcode_re prev (q +:+ wx_tail sign code) = ms ++ [mf]
             ∧ group (m_groups mf) 2 = Some code.
Proof.
  intros Hs Hc n. induction n as [|n IH]; intros q prev fuel Hn Hfuel; [lia|].
  destruct fuel as [|fuel]; [lia|]. cbn [findall_from].
  destruct (wx_search_step sign code q prev Hs Hc) as (m & -> & Ht & Hm).
  destruct (m_text m) as [|c0 t0] eqn:Et; [done|].
  destruct Hm as [[-> Hg] | (q' & -> & Hl)].
  - exists [], m. split; [|done]. simpl. f_equal.
    destruct fuel as [|fuel]; [done|]. cbn [findall_from].
    by rewrite wx_nothing_left.
  - destruct (IH q' (m_last m) fuel) as (ms & mf & -> & Hg); [lia | lia |].
    exists (m :: ms), mf. done.
Qed.

Lemma has_ink_lstrip p : has_ink p = true → ∃ c u, lstrip p = String c u.
Proof.
  intros Hp. destruct (lstrip_head p) as [E | (c & u & E & _)]; [|eauto].
  destruct (lstrip_split p) as (w & Hw & Hb). rewrite E, append_nil_r in Hw.
  subst w. unfold has_ink in Hp. by rewrite Hb in Hp.
Qed.

Lemma rstrip_app_keep a b : rstrip b = b → b ≠ "" → rstrip (a +:+ b) = a +:+ b.
Proof.
  intros Hb Hne. induction a as [|c a IH]; [done|].
  simpl String.append. rewrite rstrip_keep; rewrite IH; [done|].
  destruct a; [done | discriminate].
Qed.

(** A string with a space in it is none of the missing-value sentinels. *)
Lemma spaced_not_missing a b :
  is_missing (Some (a +:+ String " " b)) = false →
  truthy (Some (a +:+ String " " b)) = true.
Proof. intros _. by destruct a. Qed.

Lemma with_space_not_sentinel a b s :
  all_chars not_space s = true → a +:+ String " " b ≠ s.
Proof.
  intros Hs E. rewrite <- E, all_chars_app in Hs. simpl in Hs.
  by rewrite andb_false_r in Hs.
Qed.

Lemma wx_code_trimmed code : In code wx_vocabulary → rstrip code = code ∧ code ≠ "".
Proof.
  intros Hc. unfold wx_vocabulary in Hc. simpl in Hc.
  repeat (destruct Hc as [<- | Hc]; [by vm_compute|]). done.
Qed.

Lemma sign_not_space sign : is_sign sign → all_chars not_space sign = true.
Proof. by intros [-> | [-> | ->]]. Qed.

(** Trimming a text whose last token is a phenomenon code removes only the
    whitespace at its start. *)
Lemma strip_wx_text p sign code :
  has_ink p = true → is_sign sign → In code wx_vocabulary →
  ∃ c u, lstrip p = String c u
         ∧ strip (p +:+ " " +:+ sign +:+ code) = String c u +:+ " " +:+ sign +:+ code.
Proof.
  intros Hp Hs Hc. destruct (has_ink_lstrip p Hp) as (c & u & E).
  exists c, u. split; [done|]. unfold strip.
  rewrite (lstrip_app_ink p c u _ E).
  destruct (wx_code_trimmed code Hc) as [Hr Hne].
  rewrite <- !append_assoc. by apply rstrip_app_keep.
Qed.

(** C7, as the code has it.  When the text ends with a space, an optional
    intensity sign and a phenomenon code, and something other than
    whitespace precedes that space, the extractor returns and the code,
    without its sign, is the last element of the [wx_codes] list. *)
Theorem trailing_wx_code_captured (p sign code : string) :
  has_ink p = true → is_sign sign → In code wx_vocabulary →
  ∃ out earlier,
    parse_metar_text (Some (p +:+ " " +:+ sign +:+ code)) = Returned out
    ∧ out !! "wx_codes" = Some (VList (earlier ++ [VStr code])).
Proof.
  intros Hp Hs Hc. set (text := p +:+ " " +:+ sign +:+ code).
  destruct (strip_wx_text p sign code Hp Hs Hc) as (c & u & Hl & Hstrip).
  fold text in Hstrip.
  assert (Hm : is_missing (Some text) = false).
  { simpl. rewrite Hstrip.
    change (String c u +:+ " " +:+ sign +:+ code)
      with (String c u +:+ String " " (sign +:+ code)).
    rewrite !orb_false_iff, !eqb_false.
    repeat split; by apply with_space_not_sentinel. }
  assert (Ht : truthy (Some text) = true).
  { unfold text. destruct p; [done | done]. }
  destruct (parse_metar_text_fields text Ht Hm) as (out & Hout & _ & _ & _ & Hwx).
  unfold wx_entry, findall in Hwx. rewrite Hstrip in Hwx.
  assert (Hend : (String c u +:+ " " +:+ sign +:+ code) +:+ " "
                 = String c u +:+ wx_tail sign code).
  { unfold wx_tail. by rewrite !append_assoc. }
  rewrite Hend in Hwx.
  destruct (wx_findall_last sign code Hs Hc (S (String.length (String c u)))
              (String c u) None
              (S (String.length (String c u +:+ wx_tail sign code))))
    as (ms & mf & Hfind & Hg).
  { lia. }
  { rewrite append_length. unfold wx_tail. simpl.
    rewrite !append_length. simpl. lia. }
  rewrite Hfind in Hwx.
  exists out, (map (λ w, VStr (group_str w 2)) ms). split; [done|].
  rewrite Hwx. destruct (ms ++ [mf]) eqn:E; [by destruct ms|].
  rewrite <- E, map_app. simpl. unfold group_str. by rewrite Hg.
Qed.

Lemma trailing_wx_code_captured_witness :
  has_ink "KJFK 041251Z" = true ∧ is_sign "-" ∧ In "RA" wx_vocabulary
  ∧ ∃ out earlier,
      parse_metar_text (Some "KJFK 041251Z -RA") = Returned out
      ∧ out !! "wx_codes" = Some (VList (earlier ++ [VStr "RA"])).
Proof.
  assert (Hs : is_sign "-") by (right; left; reflexivity).
  assert (Hc : In "RA" wx_vocabulary) by (simpl; tauto).
  split; [reflexivity|]. split; [exact Hs|]. split; [exact Hc|].
  exact (trailing_wx_code_captured "KJFK 041251Z" "-" "RA" eq_refl Hs Hc).
Defined.

(** The claim as written covers every text that ends with a space and a
    code.  When only whitespace precedes that space, trimming removes the
    space itself and the code is not captured. *)
Lemma trailing_wx_code_after_blank :
  " -RA" = "" +:+ " " +:+ "-" +:+ "RA"
  ∧ parse_metar_text (Some " -RA") = Returned ∅
  ∧ parsed_entry " -RA" "wx_codes" = None.
Proof. repeat split; vm_compute; reflexivity. Qed.

(* ------------------------------------------------------------------ *)
(** ** The record assembler, step by step *)
(* ------------------------------------------------------------------ *)

(** *** The numeric table *)

Lemma set_numeric_absent (row : row_t) (rec : record) col outname cast :
  has_key row col = false → set_numeric row rec (col, outname, cast) = Returned rec.
Proof. intros H. unfold set_numeric. by rewrite H. Qed.

Lemma set_numeric_returns (row : row_t) (rec : record) spec :
  ∃ rec', set_numeric row rec spec = Returned rec'
          ∧ ∀ k, k ∉ spec_keys spec → rec' !! k = rec !! k.
Proof.
  destruct spec as [[col outname] cast]. unfold set_numeric.
  destruct (has_key row col); [|by eexists].
  destruct (parse_numeric_field_returns (row_get row col) cast) as (v & trace & ->).
  simpl. eexists. split; [done|]. intros k Hk. simpl in Hk.
  rewrite !not_elem_of_cons in Hk. destruct Hk as (? & ? & ? & _).
  by rewrite !lookup_insert_ne.
Qed.

(** The loop over a table returns; a key outside the table is untouched,
    and a table without clashing keys stores, for each entry, what
    lines 145-148 say when the column is present and nothing when it is
    absent. *)
Lemma numeric_loop specs (row : row_t) (rec : record) :
  ∃ rec', for_each (set_numeric row) specs rec = Returned rec'
    ∧ (∀ k, k ∉ numeric_keys specs → rec' !! k = rec !! k)
    ∧ (NoDup (numeric_keys specs) →
       ∀ col outname cast, (col, outname, cast) ∈ specs →
         if has_key row col then
           ∃ v trace, parse_numeric_field (row_get row col) cast = Returned (v, trace)
             ∧ rec' !! (outname +:+ "_raw") = Some (of_opt (row_get row col))
             ∧ rec' !! (outname +:+ "_v") = Some v
             ∧ rec' !! (outname +:+ "_is_trace") = Some (VBool trace)
         else
           ∀ k, k ∈ spec_keys (col, outname, cast) → rec' !! k = rec !! k).
Proof.
  revert rec. induction specs as [|spec specs IH]; intros rec.
  - exists rec. split; [done|]. split; [done|]. intros _ ??? H. by apply elem_of_nil in H.
  - destruct (set_numeric_returns row rec spec) as (rec1 & E1 & Hout1).
    destruct (IH rec1) as (rec' & E & Hout & Hin).
    exists rec'. split; [|split].
    + simpl. by rewrite E1.
    + intros k Hk. unfold numeric_keys in Hk. simpl in Hk.
      rewrite not_elem_of_app in Hk. destruct Hk as [Hk1 Hk2].
      by rewrite Hout, Hout1.
    + intros Hnd col outname cast Hmem.
      unfold numeric_keys in Hnd. simpl in Hnd.
      apply NoDup_app in Hnd as (_ & Hdisj & Hnd).
      apply elem_of_cons in Hmem as [<- | Hmem].
      * (* the head entry: later entries leave its keys alone *)
        assert (Hlater : ∀ k, k ∈ spec_keys (col, outname, cast) → rec' !! k = rec1 !! k).
        { intros k Hk. apply Hout. by apply Hdisj. }
        destruct (has_key row col) eqn:Hk.
        -- destruct (parse_numeric_field_returns (row_get row col) cast)
             as (v & trace & Hp).
           destruct (set_numeric_present row rec col outname cast v trace Hk Hp)
             as (rec1' & E1' & Hr & Hv & Ht).
           assert (rec1' = rec1) as -> by congruence.
           exists v, trace. split; [done|].
           rewrite !Hlater by (simpl; set_solver). done.
        -- rewrite set_numeric_absent in E1 by done. injection E1 as <-.
           exact Hlater.
      * (* a later entry: the head entry leaves its keys alone *)
        specialize (Hin Hnd col outname cast Hmem).
        destruct (has_key row col); [done|].
        intros k Hk. rewrite Hin by done. apply Hout1.
        intros Hk1. apply (Hdisj k Hk1).
        unfold numeric_keys. apply list_elem_of_In, in_flat_map.
        exists (col, outname, cast). split; by apply list_elem_of_In.
Qed.

(** *** Clouds and weather codes *)

Lemma set_clouds_other (row : row_t) (rec : record) k :
  k ≠ "cloud_groups_raw" → set_clouds row rec !! k = rec !! k.
Proof.
  intros Hk. unfold set_clouds.
  destruct (flat_map _ _); [done | by rewrite lookup_insert_ne].
Qed.

Lemma set_wxcodes_eq (row : row_t) (rec : record) :
  set_wxcodes row rec = Returned (wx_rec row rec).
Proof.
  unfold set_wxcodes, wx_rec. destruct (row_get row "wxcodes") as [s|]; [|done].
  simpl default. by destruct (truthy (Some s) && negb (is_missing (Some s))).
Qed.

Lemma wx_rec_raw (row : row_t) (rec : record) :
  wx_rec row rec !! "wxcodes_raw" = Some (of_opt (row_get row "wxcodes")).
Proof.
  unfold wx_rec. destruct (_ && _).
  - rewrite lookup_insert_ne by done. apply lookup_insert_eq.
  - apply lookup_insert_eq.
Qed.

Lemma wx_rec_other (row : row_t) (rec : record) k :
  k ≠ "wxcodes_raw" → k ≠ "wxcodes_tokens" → wx_rec row rec !! k = rec !! k.
Proof.
  intros H1 H2. unfold wx_rec. destruct (_ && _); by rewrite !lookup_insert_ne.
Qed.

(** *** The pass-through of the remaining columns *)

Lemma has_key_true {V} (m : gmap string V) k : has_key m k = true ↔ is_Some (m !! k).
Proof. unfold has_key. destruct (m !! k); split; try done; by intros [? ?]. Qed.

Lemma has_key_false {V} (m : gmap string V) k : has_key m k = false ↔ m !! k = None.
Proof. unfold has_key. by destruct (m !! k). Qed.

Lemma pass_through_step_mono (row : row_t) (rec : record) f k :
  is_Some (rec !! k) → is_Some (pass_through row rec f !! k).
Proof.
  intros Hk. unfold pass_through. destruct (has_key rec f); [done|].
  destruct (decide (f +:+ "_raw" = k)) as [<- | Hne].
  - rewrite lookup_insert_eq. by eexists.
  - by rewrite lookup_insert_ne.
Qed.

Lemma pass_through_mono (row : row_t) fields (rec : record) k :
  is_Some (rec !! k) → is_Some (fold_left (pass_through row) fields rec !! k).
Proof.
  revert rec. induction fields as [|f fields IH]; intros rec Hk; [done|].
  simpl. by apply IH, pass_through_step_mono.
Qed.

(** Every listed column ends up as a key, or its [_raw] copy does. *)
Lemma pass_through_covers (row : row_t) fields (rec : record) k :
  k ∈ fields →
  is_Some (fold_left (pass_through row) fields rec !! k)
  ∨ is_Some (fold_left (pass_through row) fields rec !! (k +:+ "_raw")).
Proof.
  revert rec. induction fields as [|f fields IH]; intros rec Hk.
  - by apply elem_of_nil in Hk.
  - simpl. apply elem_of_cons in Hk as [<- | Hk]; [|by apply IH].
    unfold pass_through at 2 4. destruct (has_key rec k) eqn:E.
    + left. apply pass_through_mono. by apply has_key_true.
    + right. apply pass_through_mono. rewrite lookup_insert_eq. by eexists.
Qed.

(** A key that is no [_raw] copy of a listed column is left alone. *)
Lemma pass_through_other (row : row_t) fields (rec : record) key :
  (∀ f, f ∈ fields → f +:+ "_raw" ≠ key) →
  fold_left (pass_through row) fields rec !! key = rec !! key.
Proof.
  revert rec. induction fields as [|f fields IH]; intros rec Hf; [done|].
  simpl. rewrite IH by (intros ??; apply Hf; by right).
  unfold pass_through. destruct (has_key rec f); [done|].
  rewrite lookup_insert_ne; [done|]. apply Hf. by left.
Qed.

(** A key keeps its value when every column that could overwrite it is
    either shadowed by a key of its own name or carries the same value. *)
Lemma pass_through_keeps (row : row_t) fields (rec : record) key v :
  rec !! key = Some v →
  (∀ f, f +:+ "_raw" = key → is_Some (rec !! f) ∨ of_opt (row_get row f) = v) →
  fold_left (pass_through row) fields rec !! key = Some v.
Proof.
  revert rec. induction fields as [|f fields IH]; intros rec Hk Hf; [done|].
  simpl. apply IH.
  - unfold pass_through. destruct (has_key rec f) eqn:E; [done|].
    destruct (decide (f +:+ "_raw" = key)) as [Hfk | Hne].
    + destruct (Hf f Hfk) as [Hs | <-].
      * apply has_key_true in Hs. congruence.
      * subst key. apply lookup_insert_eq.
    + by rewrite lookup_insert_ne.
  - intros f' Hf'. destruct (Hf f' Hf') as [Hs | ?]; [left | by right].
    by apply pass_through_step_mono.
Qed.

(** A listed column that is no key itself, and whose name is no [_raw]
    copy of another column, is copied under its [_raw] name. *)
Lemma pass_through_writes (row : row_t) fields (rec : record) col :
  col ∈ fields → rec !! col = None → (∀ f, f +:+ "_raw" ≠ col) →
  fold_left (pass_through row) fields rec !! (col +:+ "_raw")
  = Some (of_opt (row_get row col)).
Proof.
  intros Hin Hnone Hname. revert rec Hnone.
  induction fields as [|f fields IH]; intros rec Hnone.
  - by apply elem_of_nil in Hin.
  - simpl. destruct (decide (f = col)) as [-> | Hne].
    + unfold pass_through at 2. rewrite (proj2 (has_key_false rec col) Hnone).
      apply pass_through_keeps; [apply lookup_insert_eq|].
      intros f Hf. right. by apply append_inj_r in Hf as ->.
    + apply elem_of_cons in Hin as [-> | Hin]; [done|].
      apply IH; [done|]. unfold pass_through. destruct (has_key rec f); [done|].
      rewrite lookup_insert_ne; [done | apply Hname].
Qed.

(** A listed column that is no key of the final record has its raw value
    under its [_raw] name. *)
Lemma pass_through_fallback (row : row_t) fields (rec : record) k :
  k ∈ fields → fold_left (pass_through row) fields rec !! k = None →
  fold_left (pass_through row) fields rec !! (k +:+ "_raw")
  = Some (of_opt (row_get row k)).
Proof.
  revert rec. induction fields as [|f fields IH]; intros rec Hin Hnone.
  - by apply elem_of_nil in Hin.
  - simpl in *. destruct (decide (f = k)) as [-> | Hne].
    + assert (Hrec : rec !! k = None).
      { destruct (rec !! k) eqn:E; [|done].
        assert (is_Some (fold_left (pass_through row) fields (pass_through row rec k) !! k))
          as [? Hs] by (apply pass_through_mono, pass_through_step_mono; by rewrite E).
        congruence. }
      unfold pass_through at 2. rewrite (proj2 (has_key_false rec k) Hrec).
      apply pass_through_keeps; [apply lookup_insert_eq|].
      intros f Hf. right. by apply append_inj_r in Hf as ->.
    + apply elem_of_cons in Hin as [-> | Hin]; [done|]. by apply IH.
Qed.

(** The last character tells the three numeric suffixes and [_raw] apart. *)
Lemma last_char_suffix p a b c : last_char p (a +:+ String b c) = last_char (Some b) c.
Proof. by rewrite last_char_app. Qed.

Lemma raw_ne_v a b : a +:+ "_raw" ≠ b +:+ "_v".
Proof. intros H. apply (f_equal (last_char None)) in H. by rewrite !last_char_suffix in H. Qed.

Lemma raw_ne_is_trace a b : a +:+ "_raw" ≠ b +:+ "_is_trace".
Proof. intros H. apply (f_equal (last_char None)) in H. by rewrite !last_char_suffix in H. Qed.

Lemma raw_name_last f col : last_char None col ≠ Some "w"%char → f +:+ "_raw" ≠ col.
Proof. intros Hc <-. by rewrite last_char_suffix in Hc. Qed.

Example datetime_archive_ex :
  datetime_archive (VStr "2024-01-05 12:51")
  = Returned (VTimestamp 1704459060000000000).
Proof. vm_compute. reflexivity. Qed.

Lemma numeric_table_nodup py_float :
  NoDup (reserved_keys ++ numeric_keys (numeric_specs py_float)).
Proof. apply (bool_decide_unpack _). by vm_compute. Qed.

Lemma numeric_columns_ok py_float :
  Forall (column_ok (reserved_keys ++ numeric_keys (numeric_specs py_float)))
         (numeric_specs py_float).
Proof.
  unfold numeric_specs. repeat constructor; try done;
    apply (bool_decide_unpack _); by vm_compute.
Qed.

Section AssemblerFacts.
Variable py_float : pyval → outcome pyval.
Variable to_datetime : pyval → outcome pyval.

Implicit Types (row : row_t) (rec : record) (k : string).

Lemma set_valid_eq row rec :
  set_valid to_datetime row rec
  = Returned (<["valid" := valid_value to_datetime (row_get row "valid")]>
             (<["valid_raw" := of_opt (row_get row "valid")]> rec)).
Proof.
  unfold set_valid, valid_value.
  destruct (row_get row "valid") as [s|]; [|done].
  destruct (truthy (Some s)); [|done]. simpl.
  destruct (String.eqb (strip s) "M"); [done|]. simpl.
  by destruct (to_datetime (VStr s)).
Qed.

(** The assembler returns on every row; its result is the pass-through
    applied to the record built by the earlier steps. *)
Lemma row_to_record_unfold row fields :
  ∃ rec2 parsed,
    for_each (set_numeric row) (numeric_specs py_float) (start_record to_datetime row)
      = Returned rec2
    ∧ parse_metar_text (row_get row "metar") = Returned parsed
    ∧ row_to_record py_float to_datetime row fields
      = Returned (fold_left (pass_through row) fields (before_pass row rec2 parsed)).
Proof.
  destruct (numeric_loop (numeric_specs py_float) row (start_record to_datetime row))
    as (rec2 & E2 & _).
  destruct (parse_metar_text_returns (row_get row "metar")) as (parsed & Ep).
  exists rec2, parsed. split; [done|]. split; [done|].
  unfold row_to_record. rewrite set_valid_eq, bind_returned.
  fold (start_record to_datetime row). rewrite E2, bind_returned.
  rewrite set_wxcodes_eq, bind_returned. unfold set_metar.
  rewrite Ep, !bind_returned. done.
Qed.

Lemma before_pass_other row rec2 parsed k :
  k ∉ reserved_keys → before_pass row rec2 parsed !! k = rec2 !! k.
Proof.
  unfold reserved_keys. rewrite !not_elem_of_cons.
  intros (_ & _ & _ & ? & ? & ? & ? & ? & _). unfold before_pass.
  rewrite !lookup_insert_ne, wx_rec_other, set_clouds_other by done. done.
Qed.

Lemma start_record_other row k : k ∉ reserved_keys → start_record to_datetime row !! k = None.
Proof.
  unfold reserved_keys. rewrite !not_elem_of_cons.
  intros (? & ? & ? & _). unfold start_record.
  by rewrite !lookup_insert_ne.
Qed.

(** The numeric loop leaves the reserved keys alone. *)
Lemma numeric_loop_reserved row rec rec2 k :
  for_each (set_numeric row) (numeric_specs py_float) rec = Returned rec2 →
  k ∈ reserved_keys → rec2 !! k = rec !! k.
Proof.
  intros E Hk.
  destruct (numeric_loop (numeric_specs py_float) row rec) as (rec2' & E' & Hout & _).
  assert (rec2' = rec2) as -> by congruence. apply Hout.
  pose proof (numeric_table_nodup py_float) as (_ & Hdisj & _)%NoDup_app.
  by apply Hdisj.
Qed.

Lemma numeric_key_not_reserved k :
  k ∈ numeric_keys (numeric_specs py_float) → k ∉ reserved_keys.
Proof.
  intros Hk Hr.
  pose proof (numeric_table_nodup py_float) as (_ & Hdisj & _)%NoDup_app.
  by apply (Hdisj k).
Qed.

Lemma spec_key_numeric col outname cast k :
  (col, outname, cast) ∈ numeric_specs py_float →
  k ∈ spec_keys (col, outname, cast) → k ∈ numeric_keys (numeric_specs py_float).
Proof.
  intros Hs Hk. unfold numeric_keys. apply list_elem_of_In, in_flat_map.
  exists (col, outname, cast). split; by apply list_elem_of_In.
Qed.

(** The six keys that every record has, with their values. *)
Lemma fixed_entries row fields :
  ∃ rec parsed,
    row_to_record py_float to_datetime row fields = Returned rec
    ∧ parse_metar_text (row_get row "metar") = Returned parsed
    ∧ rec !! "station" = Some (of_opt (row_get row "station"))
    ∧ rec !! "valid_raw" = Some (of_opt (row_get row "valid"))
    ∧ rec !! "valid" = Some (valid_value to_datetime (row_get row "valid"))
    ∧ rec !! "wxcodes_raw" = Some (of_opt (row_get row "wxcodes"))
    ∧ rec !! "metar_raw" = Some (of_opt (row_get row "metar"))
    ∧ rec !! "metar_parsed" = Some (VDict parsed).
Proof.
  destruct (row_to_record_unfold row fields) as (rec2 & parsed & E2 & Ep & ->).
  eexists; exists parsed. split; [done|]. split; [done|].
  assert (Hst : ∀ k, k ∈ reserved_keys →
            k ≠ "cloud_groups_raw" → k ≠ "wxcodes_raw" → k ≠ "wxcodes_tokens" →
            k ≠ "metar_raw" → k ≠ "metar_parsed" →
            before_pass row rec2 parsed !! k = start_record to_datetime row !! k).
  { intros k Hk ? ? ? ? ?. unfold before_pass.
    rewrite !lookup_insert_ne, wx_rec_other, set_clouds_other by done.
    by apply (numeric_loop_reserved row _ _ k E2). }
  assert (Hres : ∀ k, In k reserved_keys → k ∈ reserved_keys)
    by (intros k Hk; by apply list_elem_of_In).
  repeat split.
  - apply pass_through_keeps.
    + rewrite Hst by (try done; apply Hres; simpl; tauto). unfold start_record.
      by simplify_map_eq.
    + intros f Hf. by apply raw_name_last in Hf.
  - apply pass_through_keeps.
    + rewrite Hst by (try done; apply Hres; simpl; tauto). unfold start_record.
      by simplify_map_eq.
    + intros f Hf. left. apply (append_inj_r f "valid") in Hf as ->.
      rewrite Hst by (try done; apply Hres; simpl; tauto). unfold start_record.
      rewrite lookup_insert_eq. by eexists.
  - apply pass_through_keeps.
    + rewrite Hst by (try done; apply Hres; simpl; tauto). unfold start_record.
      by rewrite lookup_insert_eq.
    + intros f Hf. by apply raw_name_last in Hf.
  - apply pass_through_keeps.
    + unfold before_pass. rewrite !lookup_insert_ne by done. apply wx_rec_raw.
    + intros f Hf. right. by apply (append_inj_r f "wxcodes") in Hf as ->.
  - apply pass_through_keeps.
    + unfold before_pass. by rewrite lookup_insert_ne, lookup_insert_eq.
    + intros f Hf. right. by apply (append_inj_r f "metar") in Hf as ->.
  - apply pass_through_keeps.
    + unfold before_pass. by rewrite lookup_insert_eq.
    + intros f Hf. by apply raw_name_last in Hf.
Qed.
End AssemblerFacts.

(* ------------------------------------------------------------------ *)
(** ** The assembled record *)
(* ------------------------------------------------------------------ *)

(** The steps before the pass-through write fixed keys and keys of the
    numeric table only. *)
Lemma before_pass_fresh (py_float to_datetime : pyval → outcome pyval)
    (row : row_t) rec2 parsed k :
  for_each (set_numeric row) (numeric_specs py_float) (start_record to_datetime row)
    = Returned rec2 →
  k ∉ reserved_keys ++ numeric_keys (numeric_specs py_float) →
  before_pass row rec2 parsed !! k = None.
Proof.
  intros E2 [Hres Hnum]%not_elem_of_app.
  rewrite before_pass_other by done.
  destruct (numeric_loop (numeric_specs py_float) row (start_record to_datetime row))
    as (rec2' & E2' & Hother & _).
  assert (rec2' = rec2) as -> by congruence.
  rewrite Hother by done. by apply start_record_other.
Qed.

(** C4, as the code has it.  The assembler returns on every row, and the
    value of a listed column is kept in the record in these cases.  A
    column whose name is none of the record's own keys (the fixed keys and
    the keys of the numeric table) and does not end in [_raw] has its raw
    value under [<column>_raw].  The columns [station] and [valid], whose
    names are keys themselves, have theirs under [station] and
    [valid_raw].  For every listed column whatever its name, the name is a
    key of the final record or [<column>_raw] holds the raw value; in the
    first case nothing says that the key holds the column's value. *)
Theorem every_column_appears (py_float to_datetime : pyval → outcome pyval)
    (row : row_t) (csv_fieldnames : list string) :
  ∃ rec, row_to_record py_float to_datetime row csv_fieldnames = Returned rec
    ∧ (∀ k, k ∈ csv_fieldnames →
         k ∉ reserved_keys ++ numeric_keys (numeric_specs py_float) →
         (∀ f, k ≠ f +:+ "_raw") →
         rec !! (k +:+ "_raw") = Some (of_opt (row_get row k)))
    ∧ rec !! "station" = Some (of_opt (row_get row "station"))
    ∧ rec !! "valid_raw" = Some (of_opt (row_get row "valid"))
    ∧ (∀ k, k ∈ csv_fieldnames →
         is_Some (rec !! k)
         ∨ rec !! (k +:+ "_raw") = Some (of_opt (row_get row k))).
Proof.
  destruct (fixed_entries py_float to_datetime row csv_fieldnames)
    as (rec & _ & Hrec & _ & Hst & Hvr & _).
  destruct (row_to_record_unfold py_float to_datetime row csv_fieldnames)
    as (rec2 & parsed & E2 & _ & Hrec').
  rewrite Hrec in Hrec'. injection Hrec' as ->.
  eexists. split; [exact Hrec|]. split; [|split; [exact Hst|split; [exact Hvr|]]].
  - intros k Hk Hfresh Hname. apply pass_through_writes; [done | |].
    + by eapply before_pass_fresh.
    + intros f E. by apply (Hname f).
  - intros k Hk.
    destruct (fold_left (pass_through row) csv_fieldnames (before_pass row rec2 parsed)
                !! k) eqn:E; [left; by eexists|].
    right. by apply pass_through_fallback.
Qed.

Lemma every_column_appears_witness :
  "elevation" ∈ example_fields
  ∧ ("elevation" ∉ reserved_keys ++ numeric_keys (numeric_specs float_exact))
  ∧ (∀ f, "elevation" ≠ f +:+ "_raw")
  ∧ ∃ rec, row_to_record float_exact datetime_archive example_row example_fields
           = Returned rec
      ∧ rec !! "elevation_raw" = Some (VStr "4")
      ∧ rec !! "station" = Some (VStr "JFK")
      ∧ rec !! "valid_raw" = Some (VStr "2024-01-05 12:51").
Proof.
  assert (Hin : "elevation" ∈ example_fields)
    by (apply list_elem_of_In; simpl; tauto).
  assert (Hk : "elevation" ∉ reserved_keys ++ numeric_keys (numeric_specs float_exact))
    by (apply (bool_decide_unpack _); by vm_compute).
  assert (Hname : ∀ f, "elevation" ≠ f +:+ "_raw").
  { intros f E. apply (f_equal (last_char None)) in E.
    by rewrite last_char_suffix in E. }
  split; [exact Hin|]. split; [exact Hk|]. split; [exact Hname|].
  destruct (every_column_appears float_exact datetime_archive example_row example_fields)
    as (rec & Hrec & Hcopy & Hst & Hvr & _).
  exists rec. split; [exact Hrec|].
  split; [exact (Hcopy "elevation" Hin Hk Hname)|].
  split; [exact Hst | exact Hvr].
Defined.

(** The claim as written has no proviso.  A column named like a key of the
    record is skipped by the pass-through: with the single column
    [valid_raw], the key [valid_raw] holds the value of the absent column
    [valid], no key [valid_raw_raw] is written, and the column's value "x"
    is nowhere in the record. *)
Lemma column_named_like_key_dropped :
  let row : row_t := {[ "valid_raw" := Some "x" ]} in
  let csv_fieldnames := ["valid_raw"] in
  "valid_raw" ∈ csv_fieldnames
  ∧ row_get row "valid_raw" = Some "x"
  ∧ row_to_record float_exact datetime_archive row csv_fieldnames
    = Returned (<["station" := VNone]> (<["valid_raw" := VNone]>
               (<["valid" := VNone]> (<["wxcodes_raw" := VNone]>
               (<["metar_raw" := VNone]> {[ "metar_parsed" := VDict ∅ ]}))))).
Proof.
  split; [apply list_elem_of_In; simpl; tauto|]. split; [reflexivity|].
  vm_compute. reflexivity.
Qed.

(** The timestamp guard of lines 121-126, without any assumption on the
    parser: [valid] is null when the raw value is null, empty or trims to
    "M"; any other value is handed to the parser, whose failure gives null. *)
Lemma timestamp_guard (py_float to_datetime : pyval → outcome pyval)
    (row : row_t) (csv_fieldnames : list string) :
  ∃ rec, row_to_record py_float to_datetime row csv_fieldnames = Returned rec
    ∧ rec !! "valid_raw" = Some (of_opt (row_get row "valid"))
    ∧ rec !! "valid" = Some (valid_value to_datetime (row_get row "valid")).
Proof.
  destruct (fixed_entries py_float to_datetime row csv_fieldnames)
    as (rec & parsed & Hrec & _ & _ & Hraw & Hv & _).
  by exists rec.
Qed.

(** C8. The assembler returns on every row and keeps the raw timestamp
    under [valid_raw].  A value that is not missing goes to the date-time
    parser, and the parsed timestamp is the parser's result, or null when it
    raises.  The parsed timestamp is null when the raw value is null, empty
    or trims to "M", which the code decides by itself; the other missing
    values (whitespace only, "NA", "None") are handed to the parser too, so
    for them the parsed timestamp is null as soon as the parser raises on
    such strings, which is the one thing assumed of [pandas.to_datetime]. *)
Theorem timestamp_parsed_or_null (py_float to_datetime : pyval → outcome pyval)
    (row : row_t) (csv_fieldnames : list string) :
  ∃ rec, row_to_record py_float to_datetime row csv_fieldnames = Returned rec
    ∧ rec !! "valid_raw" = Some (of_opt (row_get row "valid"))
    ∧ (∀ s, row_get row "valid" = Some s → is_missing (Some s) = false →
         rec !! "valid" = Some match to_datetime (VStr s) with
                               | Returned t => t
                               | Raised => VNone
                               end)
    ∧ (row_get row "valid" = None ∨ row_get row "valid" = Some ""
       ∨ (∃ s, row_get row "valid" = Some s ∧ strip s = "M") →
       rec !! "valid" = Some VNone)
    ∧ ((∀ s, is_missing (Some s) = true → s ≠ "" → strip s ≠ "M" →
             to_datetime (VStr s) = Raised) →
       is_missing (row_get row "valid") = true → rec !! "valid" = Some VNone).
Proof.
  destruct (timestamp_guard py_float to_datetime row csv_fieldnames)
    as (rec & Hrec & Hraw & Hv).
  exists rec. split; [done|]. split; [done|]. rewrite Hv. split; [|split].
  - intros s -> Hm. simpl.
    assert (Hne : strip s ≠ "" ∧ strip s ≠ "M").
    { simpl in Hm. rewrite !orb_false_iff, !eqb_false in Hm. tauto. }
    destruct Hne as [Hne HM]. apply eqb_false in HM. rewrite HM.
    by destruct s.
  - intros [-> | [-> | (s & -> & HM)]]; [done | done |].
    simpl. apply eqb_true in HM. rewrite HM. by destruct s.
  - intros Hparser Hm. destruct (row_get row "valid") as [s|]; [|done]. simpl.
    destruct s as [|c s]; [done|]. simpl truthy. simpl andb.
    destruct (String.eqb (strip (String c s)) "M") eqn:E; [done|]. simpl.
    apply eqb_false in E. by rewrite Hparser.
Qed.

Lemma datetime_archive_rejects_missing (s : string) :
  is_missing (Some s) = true → datetime_archive (VStr s) = Raised.
Proof.
  simpl. rewrite !orb_true_iff, !eqb_true. unfold datetime_archive.
  intros [[[-> | ->] | ->] | ->]; by vm_compute.
Qed.

Lemma timestamp_parsed_or_null_witness :
  (∀ s, is_missing (Some s) = true → s ≠ "" → strip s ≠ "M" →
        datetime_archive (VStr s) = Raised)
  ∧ record_entry float_exact datetime_archive example_row example_fields "valid"
    = Some (VTimestamp 1704459060000000000)
  ∧ record_entry float_exact datetime_archive {[ "valid" := Some " NA " ]} ["valid"]
      "valid"
    = Some VNone.
Proof.
  assert (Hparser : ∀ s, is_missing (Some s) = true → s ≠ "" → strip s ≠ "M" →
                         datetime_archive (VStr s) = Raised)
    by (intros s Hm _ _; by apply datetime_archive_rejects_missing).
  split; [exact Hparser|]. split.
  - destruct (timestamp_parsed_or_null float_exact datetime_archive
                example_row example_fields)
      as (rec & Hrec & _ & Hv & _).
    unfold record_entry. rewrite Hrec.
    exact (Hv "2024-01-05 12:51" eq_refl eq_refl).
  - destruct (timestamp_parsed_or_null float_exact datetime_archive
                {[ "valid" := Some " NA " ]} ["valid"])
      as (rec & Hrec & _ & _ & _ & Hm).
    unfold record_entry. rewrite Hrec.
    exact (Hm Hparser eq_refl).
Defined.

Lemma row_get_absent (row : row_t) k : row !! k = None → row_get row k = None.
Proof. intros H. unfold row_get. by rewrite H. Qed.

Lemma has_key_absent (row : row_t) k : row !! k = None → has_key row k = false.
Proof. by intros ?%has_key_false. Qed.

(** The keys of an absent numeric column are not written by the steps
    before the pass-through. *)
Lemma absent_numeric_before_pass (py_float to_datetime : pyval → outcome pyval)
    (row : row_t) rec2 parsed col outname cast k :
  for_each (set_numeric row) (numeric_specs py_float) (start_record to_datetime row)
    = Returned rec2 →
  (col, outname, cast) ∈ numeric_specs py_float → row !! col = None →
  k ∈ spec_keys (col, outname, cast) →
  before_pass row rec2 parsed !! k = None.
Proof.
  intros E2 Hs Hcol Hk.
  pose proof (spec_key_numeric py_float col outname cast k Hs Hk) as Hnum.
  pose proof (numeric_key_not_reserved py_float k Hnum) as Hres.
  rewrite before_pass_other by done.
  destruct (numeric_loop (numeric_specs py_float) row (start_record to_datetime row))
    as (rec2' & E2' & _ & Hin).
  assert (rec2' = rec2) as -> by congruence.
  pose proof (numeric_table_nodup py_float) as (_ & _ & Hnd)%NoDup_app.
  specialize (Hin Hnd col outname cast Hs).
  rewrite (has_key_absent row col Hcol) in Hin. rewrite Hin by done.
  by apply start_record_other.
Qed.

(** C9. The assembler returns on every row, and the record always has the
    keys [station], [valid_raw], [valid], [wxcodes_raw], [metar_raw] and
    [metar_parsed]; when the source column is absent from the row they hold
    null, and [metar_parsed] the empty mapping.  A numeric column that is
    absent from the row produces no key: its table entry leaves the record
    as it is, and the record has no [<outputName>_v] and no
    [<outputName>_is_trace]; a key [<outputName>_raw] can only be the
    pass-through copy of a CSV column that is itself named [<outputName>]. *)
Theorem fixed_keys_always_present (py_float to_datetime : pyval → outcome pyval)
    (row : row_t) (csv_fieldnames : list string) :
  ∃ rec, row_to_record py_float to_datetime row csv_fieldnames = Returned rec
    ∧ (is_Some (rec !! "station") ∧ is_Some (rec !! "valid_raw")
       ∧ is_Some (rec !! "valid") ∧ is_Some (rec !! "wxcodes_raw")
       ∧ is_Some (rec !! "metar_raw") ∧ is_Some (rec !! "metar_parsed"))
    ∧ (row !! "station" = None → rec !! "station" = Some VNone)
    ∧ (row !! "valid" = None →
         rec !! "valid_raw" = Some VNone ∧ rec !! "valid" = Some VNone)
    ∧ (row !! "wxcodes" = None → rec !! "wxcodes_raw" = Some VNone)
    ∧ (row !! "metar" = None →
         rec !! "metar_raw" = Some VNone ∧ rec !! "metar_parsed" = Some (VDict ∅))
    ∧ (∀ col outname cast,
         (col, outname, cast) ∈ numeric_specs py_float → row !! col = None →
         (∀ rec0, set_numeric row rec0 (col, outname, cast) = Returned rec0)
         ∧ rec !! (outname +:+ "_v") = None
         ∧ rec !! (outname +:+ "_is_trace") = None
         ∧ (outname ∉ csv_fieldnames → rec !! (outname +:+ "_raw") = None)).
Proof.
  destruct (fixed_entries py_float to_datetime row csv_fieldnames)
    as (rec & parsed & Hrec & Hp & Hst & Hvr & Hv & Hw & Hmr & Hmp).
  exists rec. split; [done|]. split; [by rewrite Hst, Hvr, Hv, Hw, Hmr, Hmp|].
  split; [intros H; by rewrite Hst, (row_get_absent _ _ H)|].
  split; [intros H; by rewrite Hvr, Hv, (row_get_absent _ _ H)|].
  split; [intros H; by rewrite Hw, (row_get_absent _ _ H)|].
  split.
  { intros H. rewrite Hmr, Hmp. rewrite (row_get_absent _ _ H) in *.
    rewrite parse_metar_text_missing in Hp by (by left). by injection Hp as <-. }
  intros col outname cast Hs Hcol.
  split; [intros rec0; by apply set_numeric_absent, has_key_absent|].
  destruct (row_to_record_unfold py_float to_datetime row csv_fieldnames)
    as (rec2 & parsed' & E2 & _ & Hrec').
  rewrite Hrec in Hrec'. injection Hrec' as ->.
  assert (Hbefore : ∀ k, In k (spec_keys (col, outname, cast)) →
            before_pass row rec2 parsed' !! k = None).
  { intros k Hk. eapply absent_numeric_before_pass; eauto.
    by apply list_elem_of_In. }
  repeat split.
  - rewrite pass_through_other; [apply Hbefore; simpl; tauto|].
    intros f _. apply raw_ne_v.
  - rewrite pass_through_other; [apply Hbefore; simpl; tauto|].
    intros f _. apply raw_ne_is_trace.
  - intros Hout. rewrite pass_through_other; [apply Hbefore; simpl; tauto|].
    intros f Hf E. by apply append_inj_r in E as ->.
Qed.

Lemma fixed_keys_always_present_witness :
  ("snowdepth", "snowdepth_in", float_exact) ∈ numeric_specs float_exact
  ∧ (∅ : row_t) !! "snowdepth" = None
  ∧ ∃ rec, row_to_record float_exact datetime_archive ∅ [] = Returned rec
      ∧ rec !! "station" = Some VNone
      ∧ rec !! "metar_parsed" = Some (VDict ∅)
      ∧ rec !! "snowdepth_in_v" = None.
Proof.
  assert (Hs : ("snowdepth", "snowdepth_in", float_exact) ∈ numeric_specs float_exact)
    by (apply list_elem_of_In; simpl; tauto).
  split; [exact Hs|]. split; [reflexivity|].
  destruct (fixed_keys_always_present float_exact datetime_archive ∅ [])
    as (rec & Hrec & _ & Hst & _ & _ & Hm & Hnum).
  exists rec. split; [exact Hrec|]. split; [exact (Hst eq_refl)|].
  split; [exact (proj2 (Hm eq_refl))|].
  exact (proj1 (proj2 (Hnum _ _ _ Hs eq_refl))).
Defined.

(** C10, as the code has it.  For a numeric column that is present in the
    row and listed among the CSV columns, the record holds the column's raw
    value under the two distinct keys [<outputName>_raw] and [<column>_raw],
    provided no CSV column is itself named [<outputName>]. *)
Theorem numeric_raw_stored_twice (py_float to_datetime : pyval → outcome pyval)
    (row : row_t) (csv_fieldnames : list string) col outname cast :
  (col, outname, cast) ∈ numeric_specs py_float →
  is_Some (row !! col) → col ∈ csv_fieldnames → outname ∉ csv_fieldnames →
  ∃ rec, row_to_record py_float to_datetime row csv_fieldnames = Returned rec
    ∧ rec !! (outname +:+ "_raw") = Some (of_opt (row_get row col))
    ∧ rec !! (col +:+ "_raw") = Some (of_opt (row_get row col))
    ∧ outname +:+ "_raw" ≠ col +:+ "_raw".
Proof.
  intros Hs Hcol%has_key_true Hin Hout.
  destruct (row_to_record_unfold py_float to_datetime row csv_fieldnames)
    as (rec2 & parsed & E2 & _ & ->).
  eexists. split; [done|].
  pose proof (numeric_columns_ok py_float) as Hok.
  rewrite Forall_forall in Hok. specialize (Hok _ Hs).
  unfold column_ok in Hok. cbv beta iota in Hok.
  destruct Hok as (Hfresh & Hlast & Hne).
  apply not_elem_of_app in Hfresh as [Hres Hnum].
  split; [|split].
  - rewrite pass_through_other.
    2:{ intros f Hf E. by apply append_inj_r in E as ->. }
    assert (Hk : outname +:+ "_raw" ∈ spec_keys (col, outname, cast))
      by (apply list_elem_of_In; simpl; tauto).
    pose proof (spec_key_numeric py_float col outname cast _ Hs Hk) as Hnk.
    rewrite before_pass_other by (by apply (numeric_key_not_reserved py_float)).
    destruct (numeric_loop (numeric_specs py_float) row (start_record to_datetime row))
      as (rec2' & E2' & _ & Hloop).
    assert (rec2' = rec2) as -> by congruence.
    pose proof (numeric_table_nodup py_float) as (_ & _ & Hnd)%NoDup_app.
    specialize (Hloop Hnd col outname cast Hs). rewrite Hcol in Hloop.
    by destruct Hloop as (v & trace & _ & Hr & _).
  - apply pass_through_writes; [done | | intros f; by apply raw_name_last].
    rewrite before_pass_other by done.
    destruct (numeric_loop (numeric_specs py_float) row (start_record to_datetime row))
      as (rec2' & E2' & Hother & _).
    assert (rec2' = rec2) as -> by congruence.
    rewrite Hother by done. by apply start_record_other.
  - intros E. by apply append_inj_r in E.
Qed.

Lemma numeric_raw_stored_twice_witness :
  ("tmpf", "tmpf_F", float_exact) ∈ numeric_specs float_exact
  ∧ is_Some (example_row !! "tmpf") ∧ "tmpf" ∈ example_fields
  ∧ ("tmpf_F" ∉ example_fields)
  ∧ ∃ rec, row_to_record float_exact datetime_archive example_row example_fields
           = Returned rec
      ∧ rec !! "tmpf_F_raw" = Some (VStr "35")
      ∧ rec !! "tmpf_raw" = Some (VStr "35").
Proof.
  assert (Hs : ("tmpf", "tmpf_F", float_exact) ∈ numeric_specs float_exact)
    by (apply list_elem_of_In; simpl; tauto).
  assert (Hrow : is_Some (example_row !! "tmpf")) by (by eexists).
  assert (Hin : "tmpf" ∈ example_fields) by (apply list_elem_of_In; simpl; tauto).
  assert (Hout : "tmpf_F" ∉ example_fields)
    by (apply (bool_decide_unpack _); by vm_compute).
  split; [exact Hs|]. split; [exact Hrow|]. split; [exact Hin|]. split; [exact Hout|].
  destruct (numeric_raw_stored_twice float_exact datetime_archive
              example_row example_fields "tmpf" "tmpf_F" float_exact Hs Hrow Hin Hout)
    as (rec & Hrec & H1 & H2 & _).
  exists rec. split; [exact Hrec|]. split; [exact H1 | exact H2].
Defined.

(** The claim as written has no proviso.  With a CSV column named [tmpf_F]
    next to [tmpf], the pass-through overwrites [tmpf_F_raw] with that
    column's value, and the two copies differ. *)
Lemma numeric_raw_overwritten :
  let row : row_t := list_to_map [("tmpf", Some "M"); ("tmpf_F", Some "x")] in
  let csv_fieldnames := ["tmpf"; "tmpf_F"] in
  is_Some (row !! "tmpf")
  ∧ record_entry float_exact datetime_archive row csv_fieldnames "tmpf_F_raw"
    = Some (VStr "x")
  ∧ record_entry float_exact datetime_archive row csv_fieldnames "tmpf_raw"
    = Some (VStr "M").
Proof. split; [by eexists|]. split; by vm_compute. Qed.

(* ------------------------------------------------------------------ *)
(** ** The parsed text, entry by entry *)
(* ------------------------------------------------------------------ *)

(** On a text that is not missing the extractor returns the mapping whose
    entries are those of the five patterns on the trimmed text. *)
Lemma parse_metar_text_lookup (text : string) :
  truthy (Some text) = true → is_missing (Some text) = false →
  ∃ out, parse_metar_text (Some text) = Returned out
         ∧ ∀ k, out !! k = parsed_lookup (strip text) k.
Proof.
  intros Ht Hm. unfold parse_metar_text.
  rewrite Ht, Hm. simpl negb. simpl orb. cbv iota.
  change (strip_of (Some text)) with (Returned (strip text)).
  rewrite bind_returned. set (s := strip text).
  assert (Hrest : ∀ out0 : gmap string pyval,
    out0 !! "visibility_raw" = None → out0 !! "altimeter_A" = None →
    out0 !! "clouds" = None → out0 !! "wx_codes" = None →
    ∀ out,
      out = (let out := match search vis_re s with
                 | Some vis => <["visibility_raw" := of_opt (group (m_groups vis) 1)]> out0
                 | None => out0
                 end in
       let out := match search altimeter_re s with
                 | Some a => <["altimeter_A" := of_opt (group (m_groups a) 1)]> out
                 | None => out
                 end in
       let clouds := findall cloud_re s in
       let out := match clouds with
                 | [] => out
                 | _ => <["clouds" := VList (map (λ c, VStr (strip (group_str c 1 +:+ group_str c 2))) clouds)]> out
                 end in
       let wx := findall wxcode_re (s +:+ " ") in
       match wx with
       | [] => out
       | _ => <["wx_codes" := VList (map (λ w, VStr (group_str w 2)) wx)]> out
       end) →
    ∀ k, out !! k =
         if String.eqb k "wx_codes" then wx_entry s
         else if String.eqb k "clouds" then clouds_entry s
         else if String.eqb k "altimeter_A" then found altimeter_re s
         else if String.eqb k "visibility_raw" then found vis_re s
         else out0 !! k).
  { intros out0 Hv Ha Hc Hw out -> k.
    unfold found, wx_entry, clouds_entry.
    destruct (String.eqb_spec k "wx_codes") as [-> | N1];
      [|destruct (String.eqb_spec k "clouds") as [-> | N2];
        [|destruct (String.eqb_spec k "altimeter_A") as [-> | N3];
          [|destruct (String.eqb_spec k "visibility_raw") as [-> | N4]]]];
      destruct (search vis_re s), (search altimeter_re s),
        (findall cloud_re s), (findall wxcode_re (s +:+ " ")); simpl;
        by simplify_map_eq. }
  unfold parsed_lookup, wind_entry.
  destruct (search wind_re s) as [m|] eqn:E.
  - unfold wind_entries.
    apply wind_groups_search in E as [(spd & z & -> & Hz) Hg]. simpl.
    rewrite Hz. simpl.
    destruct Hg as [-> | (gst & z' & -> & Hz')]; simpl.
    + eexists. split; [done|]. intros k.
      etransitivity; [eapply Hrest; cycle 4; [reflexivity | done..] | done].
    + destruct gst; simpl.
      * eexists. split; [done|]. intros k.
        etransitivity; [eapply Hrest; cycle 4; [reflexivity | done..] | done].
      * rewrite Hz'. simpl. eexists. split; [done|]. intros k.
        etransitivity; [eapply Hrest; cycle 4; [reflexivity | done..] | done].
  - simpl. eexists. split; [done|]. intros k.
    etransitivity; [eapply Hrest; cycle 4; [reflexivity | done..] |].
    by rewrite lookup_empty.
Qed.

(** Every match that [findall] reports is a match of the pattern at some
    position of the input. *)
Lemma findall_from_sound fuel r prev s m :
  m ∈ findall_from fuel r prev s →
  ∃ prev' s' m0, match_here r prev' s' = Some m0
    ∧ m_text m0 = m_text m ∧ m_after m0 = m_after m ∧ m_groups m0 = m_groups m.
Proof.
  revert prev s. induction fuel as [|fuel IH]; intros prev s; simpl.
  - by intros ?%elem_of_nil.
  - destruct (search_from r prev s) as [m1|] eqn:E; [|by intros ?%elem_of_nil].
    intros [<- | Hin]%elem_of_cons.
    + apply search_from_sound in E as (m0 & H0 & _ & Ht & Ha & _ & Hg).
      by exists (last_char prev (m_before m)), (m_text m +:+ m_after m), m0.
    + destruct (m_text m1), (m_after m1); eauto; by apply elem_of_nil in Hin.
Qed.

Lemma digit_value_range c : is_digit c = true → (0 ≤ digit_value c ≤ 9)%Z.
Proof.
  destruct c as [[] [] [] [] [] [] [] []]; try discriminate; intros _;
    by vm_compute.
Qed.

(** The value of a run of digits read after the accumulator [acc]. *)
Lemma int_digits_value m :
  all_chars is_digit m = true →
  ∀ acc b, m ≠ "" ∨ b = true → (0 ≤ acc)%Z →
  ∃ z, int_digits acc b m = Returned z
       ∧ (acc * 10 ^ Z.of_nat (String.length m) ≤ z
          < (acc + 1) * 10 ^ Z.of_nat (String.length m))%Z.
Proof.
  induction m as [|c m IH]; simpl String.length; intros Hd acc b Hb Hacc.
  - destruct Hb as [? | ->]; [done|]. exists acc. split; [done|].
    change (10 ^ Z.of_nat 0)%Z with 1%Z. lia.
  - simpl in Hd. apply andb_prop in Hd as [Hc Hm]. simpl. rewrite Hc.
    pose proof (digit_value_range c Hc) as Hv.
    destruct (IH Hm (10 * acc + digit_value c)%Z true) as (z & -> & Hz);
      [auto | lia |].
    exists z. split; [done|].
    rewrite Nat2Z.inj_succ, Z.pow_succ_r by lia.
    assert (0 < 10 ^ Z.of_nat (String.length m))%Z by (apply Z.pow_pos_nonneg; lia).
    nia.
Qed.

(** [int] of a non-empty run of digits is its decimal value. *)
Lemma py_int_digits_value m :
  all_chars is_digit m = true → m ≠ "" →
  ∃ z, py_int m = Returned z ∧ (0 ≤ z < 10 ^ Z.of_nat (String.length m))%Z.
Proof.
  intros Hd Hne.
  assert (E : py_int m = int_digits 0 false m).
  { unfold py_int. rewrite strip_inkless.
    2:{ eapply all_chars_impl; [|done]. intros c Hc.
        by rewrite (digit_not_space c Hc). }
    destruct m as [|c m]; [done|].
    assert (Hc : is_digit c = true) by (simpl in Hd; by apply andb_prop in Hd as [? _]).
    destruct c as [[] [] [] [] [] [] [] []]; try discriminate Hc; done. }
  rewrite E. destruct (int_digits_value m Hd 0%Z false) as (z & -> & Hz); [auto | lia |].
  exists z. split; [done | lia].
Qed.

(** The groups of a wind match, with their lengths. *)
Lemma wind_groups_shape prev s m :
  match_here wind_re prev s = Some m →
  (∃ dir, group (m_groups m) 1 = Some dir
          ∧ (dir = "VRB" ∨ (String.length dir = 3 ∧ all_chars is_digit dir = true)))
  ∧ (∃ spd, group (m_groups m) 2 = Some spd ∧ all_chars is_digit spd = true
            ∧ 2 ≤ String.length spd ≤ 3)
  ∧ (group (m_groups m) 4 = None
     ∨ ∃ gst, group (m_groups m) 4 = Some gst ∧ all_chars is_digit gst = true
              ∧ 2 ≤ String.length gst ≤ 3).
Proof.
  intros (cs & _ & H & ->)%match_here_sound. simpl.
  destruct m as [b t a l g]; simpl in *. clear b l g.
  unfold wind_re, d in H. simpl lits in H.
  invert_matches; simpl.
  all: split; [eexists; split; [done|]; (by left) || (right; split; [lia | done]) |].
  all: split; [eexists; split; [done|]; split; [done | lia] |].
  all: try (by left).
  all: right; eexists; split; [done|]; split; [done | lia].
Qed.

(** The three wind entries of a match, with the values lines 86-88 give. *)
Lemma wind_entries_shape prev s m :
  match_here wind_re prev s = Some m →
  ∃ dir spd,
    wind_entries m !! "wind_dir" = Some (VStr dir)
    ∧ (dir = "VRB" ∨ (String.length dir = 3 ∧ all_chars is_digit dir = true))
    ∧ wind_entries m !! "wind_spd_kt" = Some (VInt spd) ∧ (0 ≤ spd ≤ 999)%Z
    ∧ (wind_entries m !! "wind_gust_kt" = Some VNone
       ∨ ∃ gst, wind_entries m !! "wind_gust_kt" = Some (VInt gst)
                ∧ (0 ≤ gst ≤ 999)%Z).
Proof.
  intros ((dir & Hdir & Hd) & (spd & Hspd & Hsd & Hsl) & Hg)%wind_groups_shape.
  assert (Hsmall : ∀ x, 2 ≤ String.length x ≤ 3 → all_chars is_digit x = true →
            ∃ z, py_int x = Returned z ∧ (0 ≤ z ≤ 999)%Z).
  { intros x Hl Hx.
    destruct (py_int_digits_value x Hx) as (z & Hz & Hr); [by apply long_nonempty; lia|].
    exists z. split; [done|].
    assert (10 ^ Z.of_nat (String.length x) ≤ 1000)%Z.
    { change 1000%Z with (10 ^ 3)%Z. apply Z.pow_le_mono_r; lia. }
    lia. }
  destruct (Hsmall spd Hsl Hsd) as (z & Hz & Hzr).
  exists dir, z. unfold wind_entries. rewrite Hdir, Hspd. simpl. rewrite Hz.
  split; [by simplify_map_eq|]. split; [done|].
  split; [by simplify_map_eq|]. split; [done|].
  destruct Hg as [-> | (gst & -> & Hgd & Hgl)]; [left; by simplify_map_eq|].
  destruct (Hsmall gst Hgl Hgd) as (g & Hgz & Hgr).
  right. exists g. simpl. rewrite Hgz.
  destruct gst; [simpl in Hgl; lia|]. simpl. by simplify_map_eq.
Qed.

Lemma wind_entries_keys m k :
  is_Some (wind_entries m !! k) →
  k = "wind_dir" ∨ k = "wind_spd_kt" ∨ k = "wind_gust_kt".
Proof.
  unfold wind_entries. cbv zeta.
  destruct (decide (k = "wind_gust_kt")) as [-> | N1]; [tauto|].
  destruct (decide (k = "wind_spd_kt")) as [-> | N2]; [tauto|].
  destruct (decide (k = "wind_dir")) as [-> | N3]; [tauto|].
  rewrite !lookup_insert_ne, lookup_singleton_ne by done. by intros [? ?].
Qed.

(** The extractor on any [Optional[str]], in one statement. *)
Lemma parse_metar_text_cases (metar : option string) :
  parse_metar_text metar = Returned ∅
  ∨ ∃ text out, metar = Some text ∧ is_missing (Some text) = false
      ∧ parse_metar_text metar = Returned out
      ∧ ∀ k, out !! k = parsed_lookup (strip text) k.
Proof.
  destruct (negb (truthy metar) || is_missing metar) eqn:E.
  - left. unfold parse_metar_text. by rewrite E.
  - apply orb_false_elim in E as [Ht Hm]. apply negb_false_iff in Ht.
    destruct metar as [text|]; [|done]. right.
    destruct (parse_metar_text_lookup text Ht Hm) as (out & Hout & Hk).
    by exists text, out.
Qed.

Lemma parsed_lookup_keys s k : is_Some (parsed_lookup s k) → k ∈ parsed_keys.
Proof.
  unfold parsed_lookup, parsed_keys.
  destruct (String.eqb_spec k "wx_codes") as [-> | _]; [intros _; set_solver|].
  destruct (String.eqb_spec k "clouds") as [-> | _]; [intros _; set_solver|].
  destruct (String.eqb_spec k "altimeter_A") as [-> | _]; [intros _; set_solver|].
  destruct (String.eqb_spec k "visibility_raw") as [-> | _]; [intros _; set_solver|].
  unfold wind_entry. destruct (search wind_re s); [|by intros [? ?]].
  intros [-> | [-> | ->]]%wind_entries_keys; set_solver.
Qed.

(** X1. [parse_metar_text] returns on every input, null included: the
    [int] conversions of the wind groups cannot raise.  The mapping it
    returns has no key beyond the seven the function names. *)
Theorem extractor_returns_known_keys (metar : option string) :
  ∃ out, parse_metar_text metar = Returned out
         ∧ ∀ k, is_Some (out !! k) → k ∈ parsed_keys.
Proof.
  destruct (parse_metar_text_cases metar) as [-> | (text & out & -> & _ & -> & Hk)].
  - exists ∅. split; [done|]. intros k [? H]. by rewrite lookup_empty in H.
  - exists out. split; [done|]. intros k. rewrite Hk. apply parsed_lookup_keys.
Qed.

(** X2. The three wind entries come together or not at all.  When present,
    the direction is "VRB" or three digits, the speed is an integer between
    0 and 999, and the gust is null or an integer between 0 and 999. *)
Theorem wind_entries_together (metar : option string) :
  ∃ out, parse_metar_text metar = Returned out
    ∧ ((out !! "wind_dir" = None ∧ out !! "wind_spd_kt" = None
        ∧ out !! "wind_gust_kt" = None)
       ∨ ∃ dir spd,
           out !! "wind_dir" = Some (VStr dir)
           ∧ (dir = "VRB" ∨ (String.length dir = 3 ∧ all_chars is_digit dir = true))
           ∧ out !! "wind_spd_kt" = Some (VInt spd) ∧ (0 ≤ spd ≤ 999)%Z
           ∧ (out !! "wind_gust_kt" = Some VNone
              ∨ ∃ gst, out !! "wind_gust_kt" = Some (VInt gst)
                       ∧ (0 ≤ gst ≤ 999)%Z)).
Proof.
  destruct (parse_metar_text_cases metar) as [-> | (text & out & -> & _ & -> & Hk)].
  - exists ∅. split; [done|]. left. by rewrite !lookup_empty.
  - exists out. split; [done|]. rewrite !Hk. unfold parsed_lookup. simpl.
    unfold wind_entry. destruct (search wind_re (strip text)) as [m|] eqn:E.
    + right. apply search_from_sound in E as (m0 & H0 & _ & _ & _ & _ & Hg).
      assert (wind_entries m = wind_entries m0) as ->
        by (unfold wind_entries; by rewrite Hg).
      by apply wind_entries_shape in H0.
    + by left.
Qed.

(* ------------------------------------------------------------------ *)
(** ** The shape of the visibility, cloud and weather entries *)
(* ------------------------------------------------------------------ *)

Ltac invert_class :=
  repeat match goal with
  | H : Matches (Cls _) _ _ _ _ _ |- _ => invert H
  end.

Lemma vis_shape prev s m :
  match_here vis_re prev s = Some m →
  ∃ t, group (m_groups m) 1 = Some t ∧ visibility_token t.
Proof.
  intros (cs & _ & H & ->)%match_here_sound. simpl.
  destruct m as [b t a l g]; simpl in *. clear b l g.
  unfold vis_re, d in H. simpl in H.
  invert_matches; invert_class; eexists; (split; [reflexivity|]);
    unfold visibility_token.
  all: try (simpl; tauto).
  all: right; right; right.
  all: eexists; split; [symmetry; apply append_assoc|].
  all: match goal with
       | H : all_chars _ ?m = true |- _ =>
           destruct m as [|c0 m']; [simpl in *; lia|];
           simpl in H; apply andb_prop in H as [Hc _]
       end.
  all: split; [|exact Hc].
  all: rewrite !append_length; simpl in *; lia.
Qed.

Lemma digits_inkless dg :
  all_chars is_digit dg = true → all_chars (λ c, negb (isspace c)) dg = true.
Proof.
  apply all_chars_impl. intros c Hc. by rewrite (digit_not_space c Hc).
Qed.

Lemma cloud_height_inkless h :
  cloud_height h → all_chars (λ c, negb (isspace c)) h = true.
Proof.
  intros [-> | (dg & sfx & -> & _ & Hd & Hs)]; [done|].
  rewrite all_chars_app, digits_inkless by done.
  by destruct Hs as [-> | [-> | ->]].
Qed.

(** The two groups of a cloud match. *)
Lemma cloud_groups_shape prev s m :
  match_here cloud_re prev s = Some m →
  In (group_str m 1) cloud_covers ∧ cloud_height (group_str m 2).
Proof.
  intros (cs & _ & H & ->)%match_here_sound. unfold group_str. simpl.
  destruct m as [b t a l g]; simpl in *. clear b l g.
  unfold cloud_re, any_of, d in H. simpl in H.
  invert_matches; simpl; (split; [tauto|]); unfold cloud_height.
  all: try (by left).
  all: right.
  all: match goal with
       | |- ∃ dg sfx, ?x +:+ ?y = _ ∧ _ => exists x, y
       | |- ∃ dg sfx, ?x = _ ∧ _ => exists x, ""; rewrite append_nil_r
       end.
  all: split; [done|]; split; [lia|]; split; [done|]; tauto.
Qed.

(** An element of the [clouds] list: cover and height, with nothing
    trimmed away. *)
Lemma cloud_element_shape prev s m :
  match_here cloud_re prev s = Some m →
  ∃ c h, strip (group_str m 1 +:+ group_str m 2) = c +:+ h
         ∧ In c cloud_covers ∧ cloud_height h.
Proof.
  intros [Hc Hh]%cloud_groups_shape.
  exists (group_str m 1), (group_str m 2). split; [|done].
  apply strip_inkless. rewrite all_chars_app, (cloud_height_inkless _ Hh), andb_true_r.
  unfold cloud_covers in Hc. simpl in Hc.
  by destruct Hc as [<- | [<- | [<- | [<- | [<- | []]]]]].
Qed.

(** The captured code of a weather match belongs to the vocabulary. *)
Lemma wx_code_shape prev s m :
  match_here wxcode_re prev s = Some m → In (group_str m 2) wx_vocabulary.
Proof.
  intros (cs & _ & H & ->)%match_here_sound. unfold group_str. simpl.
  destruct m as [b t a l g]; simpl in *. clear b l g.
  unfold wxcode_re, any_of, wx_vocabulary in H. simpl in H.
  invert_matches; simpl; tauto.
Qed.

(** X3. When the [visibility_raw] entry is present it is a string of the
    form the pattern allows: "1/4", "M1/4", "M1/2", or at most five
    characters starting with a digit followed by "SM". *)
Theorem visibility_entry_shape (metar : option string) :
  ∃ out, parse_metar_text metar = Returned out
    ∧ ∀ v, out !! "visibility_raw" = Some v → ∃ t, v = VStr t ∧ visibility_token t.
Proof.
  destruct (parse_metar_text_cases metar) as [-> | (text & out & -> & _ & -> & Hk)].
  - exists ∅. split; [done|]. intros v H. by rewrite lookup_empty in H.
  - exists out. split; [done|]. intros v. rewrite Hk. unfold parsed_lookup. simpl.
    unfold found, search.
    destruct (search_from vis_re None (strip text)) as [m|] eqn:E; [|done].
    apply search_from_sound in E as (m0 & H0 & _ & _ & _ & _ & Hg).
    apply vis_shape in H0 as (t & Ht & Hshape). rewrite Hg in Ht.
    simpl. rewrite Ht. intros [= <-]. by exists t.
Qed.

(** X4. The [clouds] entry, when present, is a non-empty list of strings;
    each is a sky-cover abbreviation followed by nothing, or by three digits
    and an optional "CB" or "TCU". *)
Theorem clouds_entry_shape (metar : option string) :
  ∃ out, parse_metar_text metar = Returned out
    ∧ ∀ v, out !! "clouds" = Some v →
        ∃ l, v = VList l ∧ l ≠ []
          ∧ ∀ e, e ∈ l → ∃ c h, e = VStr (c +:+ h) ∧ In c cloud_covers
                                ∧ cloud_height h.
Proof.
  destruct (parse_metar_text_cases metar) as [-> | (text & out & -> & _ & -> & Hk)].
  - exists ∅. split; [done|]. intros v H. by rewrite lookup_empty in H.
  - exists out. split; [done|]. intros v. rewrite Hk. unfold parsed_lookup. simpl.
    unfold clouds_entry, findall.
    set (ms := findall_from _ cloud_re None (strip text)).
    assert (Hms : ∀ m, m ∈ ms → ∃ c h,
              strip (group_str m 1 +:+ group_str m 2) = c +:+ h
              ∧ In c cloud_covers ∧ cloud_height h).
    { intros m (p' & s' & m0 & H0 & _ & _ & Hg)%findall_from_sound.
      apply cloud_element_shape in H0. unfold group_str in *. by rewrite Hg in H0. }
    destruct ms as [|m1 ms]; [done|]. intros [= <-].
    eexists. split; [done|]. split; [done|].
    intros e [-> | (m & <- & Hm%list_elem_of_In)%list_elem_of_In%in_map_iff]%elem_of_cons.
    + destruct (Hms m1) as (c & h & -> & ? & ?); [by left | by exists c, h].
    + destruct (Hms m) as (c & h & -> & ? & ?); [by right | by exists c, h].
Qed.

(** X5. The [wx_codes] entry, when present, is a non-empty list of
    two-letter codes of the vocabulary; an intensity sign never appears
    in it. *)
Theorem wx_codes_entry_shape (metar : option string) :
  ∃ out, parse_metar_text metar = Returned out
    ∧ ∀ v, out !! "wx_codes" = Some v →
        ∃ l, v = VList l ∧ l ≠ []
          ∧ ∀ e, e ∈ l → ∃ code, e = VStr code ∧ In code wx_vocabulary.
Proof.
  destruct (parse_metar_text_cases metar) as [-> | (text & out & -> & _ & -> & Hk)].
  - exists ∅. split; [done|]. intros v H. by rewrite lookup_empty in H.
  - exists out. split; [done|]. intros v. rewrite Hk. unfold parsed_lookup. simpl.
    unfold wx_entry, findall.
    set (ms := findall_from _ wxcode_re None (strip text +:+ " ")).
    assert (Hms : ∀ m, m ∈ ms → In (group_str m 2) wx_vocabulary).
    { intros m (p' & s' & m0 & H0 & _ & _ & Hg)%findall_from_sound.
      apply wx_code_shape in H0. unfold group_str in *. by rewrite Hg in H0. }
    destruct ms as [|m1 ms]; [done|]. intros [= <-].
    eexists. split; [done|]. split; [done|].
    intros e [-> | (m & <- & Hm%list_elem_of_In)%list_elem_of_In%in_map_iff]%elem_of_cons.
    + eexists. split; [done|]. apply Hms. by left.
    + eexists. split; [done|]. apply Hms. by right.
Qed.

(** X6. Whitespace around the report text changes nothing: the extractor
    gives the same result on the padded text. *)
Theorem extractor_ignores_padding (w1 text w2 : string) :
  all_chars isspace w1 = true → all_chars isspace w2 = true →
  parse_metar_text (Some (w1 +:+ text +:+ w2)) = parse_metar_text (Some text).
Proof.
  intros H1 H2.
  assert (Hstrip : strip (w1 +:+ text +:+ w2) = strip text) by by apply strip_padded.
  assert (Hmiss : is_missing (Some (w1 +:+ text +:+ w2)) = is_missing (Some text))
    by (simpl; by rewrite Hstrip).
  destruct (is_missing (Some text)) eqn:Hm.
  - rewrite !parse_metar_text_missing; auto.
  - assert (Ht : truthy (Some text) = true) by (by destruct text).
    assert (Ht' : truthy (Some (w1 +:+ text +:+ w2)) = true).
    { destruct (w1 +:+ text +:+ w2) eqn:E; [discriminate Hmiss | done]. }
    unfold parse_metar_text. rewrite Ht, Ht', Hmiss, Hm. simpl negb. simpl orb.
    cbv iota. unfold strip_of. by rewrite Hstrip.
Qed.

Lemma extractor_ignores_padding_witness :
  all_chars isspace "  " = true ∧ all_chars isspace " " = true
  ∧ parse_metar_text (Some ("  " +:+ "KJFK 21015G25KT" +:+ " "))
    = parse_metar_text (Some "KJFK 21015G25KT").
Proof.
  split; [reflexivity|]. split; [reflexivity|].
  apply (extractor_ignores_padding "  " "KJFK 21015G25KT" " "); reflexivity.
Defined.

(* ------------------------------------------------------------------ *)
(** ** More on the field normaliser *)
(* ------------------------------------------------------------------ *)

(** X7. A token that is neither missing nor trace is handed to the cast
    after trimming, and the value the cast returns is the result, with
    [is_trace] false. *)
Theorem normalize_cast_value (raw : string) (cast : pyval → outcome pyval) (v : pyval) :
  is_missing (Some raw) = false → is_trace_token (Some raw) = false →
  cast (VStr (strip raw)) = Returned v →
  parse_numeric_field (Some raw) cast = Returned (v, false).
Proof. intros Hm Ht Hc. rewrite normalize_value by done. by rewrite Hc. Qed.

Lemma normalize_cast_value_witness :
  is_missing (Some " 15 ") = false ∧ is_trace_token (Some " 15 ") = false
  ∧ float_exact (VStr (strip " 15 ")) = Returned (VFloat 0x402E000000000000)
  ∧ parse_numeric_field (Some " 15 ") float_exact
    = Returned (VFloat 0x402E000000000000, false).
Proof.
  split; [reflexivity|]. split; [reflexivity|]. split; [reflexivity|].
  apply (normalize_cast_value " 15 " float_exact); reflexivity.
Defined.

(** X8. The trace flag is raised for the trace token only: when the result
    carries [is_trace] true, the raw value is a string that trims to "T",
    and the value is what the cast made of 0, or the integer 0 when that
    cast raised. *)
Theorem trace_flag_only_for_T (raw : option string) (cast : pyval → outcome pyval)
    (v : pyval) :
  parse_numeric_field raw cast = Returned (v, true) →
  ∃ s, raw = Some s ∧ strip s = "T"
       ∧ (cast (VInt 0) = Returned v ∨ (cast (VInt 0) = Raised ∧ v = VInt 0)).
Proof.
  unfold parse_numeric_field. destruct (is_missing raw) eqn:Hm; [done|].
  destruct raw as [s|]; [|done]. simpl. rewrite strip_idem.
  destruct (String.eqb (strip s) "T") eqn:Ht.
  - apply eqb_true in Ht. intros H. exists s. split; [done|]. split; [done|].
    destruct (cast (VInt 0)); simpl in H; injection H as <-; auto.
  - destruct (cast (VStr (strip s))); simpl; intros [= _ ?]; done.
Qed.

Lemma trace_flag_only_for_T_witness :
  parse_numeric_field (Some " T") float_exact = Returned (VFloat 0, true)
  ∧ ∃ s, Some " T" = Some s ∧ strip s = "T"
         ∧ (float_exact (VInt 0) = Returned (VFloat 0)
            ∨ (float_exact (VInt 0) = Raised ∧ VFloat 0 = VInt 0)).
Proof.
  split; [reflexivity|].
  exact (trace_flag_only_for_T (Some " T") float_exact (VFloat 0) eq_refl).
Defined.

(** X9. Whitespace around a token changes nothing for the normaliser: the
    padded token gives the same value and the same trace flag. *)
Theorem normalizer_ignores_padding (w1 s w2 : string) (cast : pyval → outcome pyval) :
  all_chars isspace w1 = true → all_chars isspace w2 = true →
  parse_numeric_field (Some (w1 +:+ s +:+ w2)) cast
  = parse_numeric_field (Some s) cast.
Proof.
  intros H1 H2. unfold parse_numeric_field, is_missing, strip_of.
  by rewrite (strip_padded w1 s w2 H1 H2).
Qed.

Lemma normalizer_ignores_padding_witness :
  all_chars isspace " " = true ∧ all_chars isspace "  " = true
  ∧ parse_numeric_field (Some (" " +:+ "15" +:+ "  ")) float_exact
    = parse_numeric_field (Some "15") float_exact.
Proof.
  split; [reflexivity|]. split; [reflexivity|].
  apply (normalizer_ignores_padding " " "15" "  " float_exact); reflexivity.
Defined.

(* ------------------------------------------------------------------ *)
(** ** More on the assembled record *)
(* ------------------------------------------------------------------ *)

Lemma numeric_outnames_ok py_float :
  Forall (outname_ok (reserved_keys ++ numeric_keys (numeric_specs py_float)))
         (numeric_specs py_float).
Proof.
  unfold numeric_specs. repeat constructor; try done;
    apply (bool_decide_unpack _); by vm_compute.
Qed.

(** X10. The numeric fields of the finished record.  For a table entry whose
    column is present in the row, the assembler returns and the record
    holds the normaliser's value under [<outputName>_v] and its trace flag
    under [<outputName>_is_trace], whatever the column list is.  The key
    [<outputName>_raw] holds the column's raw value, unless the column list
    names a column [<outputName>]: then it holds that column's value. *)
Theorem numeric_fields_in_record (py_float to_datetime : pyval → outcome pyval)
    (row : row_t) (csv_fieldnames : list string) col outname cast :
  (col, outname, cast) ∈ numeric_specs py_float → is_Some (row !! col) →
  ∃ rec v trace,
    row_to_record py_float to_datetime row csv_fieldnames = Returned rec
    ∧ parse_numeric_field (row_get row col) cast = Returned (v, trace)
    ∧ rec !! (outname +:+ "_v") = Some v
    ∧ rec !! (outname +:+ "_is_trace") = Some (VBool trace)
    ∧ (outname ∉ csv_fieldnames →
       rec !! (outname +:+ "_raw") = Some (of_opt (row_get row col)))
    ∧ (outname ∈ csv_fieldnames →
       rec !! (outname +:+ "_raw") = Some (of_opt (row_get row outname))).
Proof.
  intros Hs Hcol%has_key_true.
  destruct (row_to_record_unfold py_float to_datetime row csv_fieldnames)
    as (rec2 & parsed & E2 & _ & Hrec).
  destruct (numeric_loop (numeric_specs py_float) row (start_record to_datetime row))
    as (rec2' & E2' & _ & Hloop).
  assert (rec2' = rec2) as -> by congruence.
  pose proof (numeric_table_nodup py_float) as (_ & _ & Hnd)%NoDup_app.
  specialize (Hloop Hnd col outname cast Hs). rewrite Hcol in Hloop.
  destruct Hloop as (v & trace & Hp & Hr & Hv & Ht).
  assert (Hkeys : ∀ k, In k (spec_keys (col, outname, cast)) →
            before_pass row rec2 parsed !! k = rec2 !! k).
  { intros k Hk%list_elem_of_In. apply before_pass_other.
    by eapply numeric_key_not_reserved, spec_key_numeric. }
  eexists _, v, trace. split; [exact Hrec|]. split; [done|].
  split; [|split; [|split]].
  - rewrite pass_through_other; [|intros f _; apply raw_ne_v].
    rewrite Hkeys by (simpl; tauto). done.
  - rewrite pass_through_other; [|intros f _; apply raw_ne_is_trace].
    rewrite Hkeys by (simpl; tauto). done.
  - intros Hout. rewrite pass_through_other.
    + rewrite Hkeys by (simpl; tauto). done.
    + intros f Hf E. by apply append_inj_r in E as ->.
  - intros Hout.
    pose proof (numeric_outnames_ok py_float) as Hok.
    rewrite Forall_forall in Hok. specialize (Hok _ Hs).
    unfold outname_ok in Hok. cbv beta iota in Hok. destruct Hok as [Hfresh Hlast].
    apply pass_through_writes; [done | | intros f; by apply raw_name_last].
    by eapply before_pass_fresh.
Qed.

Lemma numeric_fields_in_record_witness :
  ("p01i", "precip_1hr_in", float_exact) ∈ numeric_specs float_exact
  ∧ is_Some (example_row !! "p01i")
  ∧ ∃ rec, row_to_record float_exact datetime_archive example_row example_fields
           = Returned rec
      ∧ rec !! "precip_1hr_in_v" = Some (VFloat 0)
      ∧ rec !! "precip_1hr_in_is_trace" = Some (VBool true)
      ∧ rec !! "precip_1hr_in_raw" = Some (VStr "T").
Proof.
  assert (Hs : ("p01i", "precip_1hr_in", float_exact) ∈ numeric_specs float_exact)
    by (apply list_elem_of_In; simpl; tauto).
  assert (Hrow : is_Some (example_row !! "p01i")) by (by eexists).
  split; [exact Hs|]. split; [exact Hrow|].
  destruct (numeric_fields_in_record float_exact datetime_archive
              example_row example_fields "p01i" "precip_1hr_in" float_exact Hs Hrow)
    as (rec & v & trace & Hrec & Hp & Hv & Ht & Hr & _).
  assert (Hout : "precip_1hr_in" ∉ example_fields)
    by (apply (bool_decide_unpack _); by vm_compute).
  injection Hp as <- <-.
  exists rec. split; [exact Hrec|]. split; [exact Hv|]. split; [exact Ht|].
  exact (Hr Hout).
Defined.

Lemma cloud_groups_filter (row : row_t) (l : list nat) :
  flat_map (cloud_group row) l
  = map (slot_dict row) (List.filter (slot_present row) l).
Proof.
  induction l as [|i l IH]; [done|]. simpl. rewrite IH.
  unfold cloud_group at 1. unfold slot_present at 2.
  by destruct (negb _ || negb _).
Qed.

Lemma set_clouds_entry (row : row_t) (rec : record) :
  set_clouds row rec !! "cloud_groups_raw"
  = match present_slots row with
    | [] => rec !! "cloud_groups_raw"
    | slots => Some (VList (map (slot_dict row) slots))
    end.
Proof.
  unfold set_clouds, present_slots. rewrite cloud_groups_filter.
  destruct (List.filter _ _); [done|]. cbn [map]. apply lookup_insert_eq.
Qed.

(** X11. The structured cloud groups of the finished record.  When the
    column list names no column [cloud_groups], the key [cloud_groups_raw]
    is absent if all four slots have a missing type and a missing height;
    otherwise it holds one group per slot that has a type or a height, in
    slot order, each with the slot's raw type and raw height. *)
Theorem cloud_groups_in_record (py_float to_datetime : pyval → outcome pyval)
    (row : row_t) (csv_fieldnames : list string) :
  "cloud_groups" ∉ csv_fieldnames →
  ∃ rec, row_to_record py_float to_datetime row csv_fieldnames = Returned rec
    ∧ rec !! "cloud_groups_raw"
      = match present_slots row with
        | [] => None
        | slots => Some (VList (map (slot_dict row) slots))
        end.
Proof.
  intros Hcg.
  destruct (row_to_record_unfold py_float to_datetime row csv_fieldnames)
    as (rec2 & parsed & E2 & _ & ->).
  eexists. split; [done|].
  rewrite pass_through_other.
  2:{ intros f Hf E. by apply (append_inj_r f "cloud_groups") in E as ->. }
  unfold before_pass. rewrite !lookup_insert_ne, wx_rec_other by done.
  rewrite set_clouds_entry. destruct (present_slots row); [|done].
  rewrite (numeric_loop_reserved py_float row _ _ "cloud_groups_raw" E2)
    by (apply list_elem_of_In; simpl; tauto).
  unfold start_record. by rewrite !lookup_insert_ne.
Qed.

Lemma cloud_groups_in_record_witness :
  ("cloud_groups" ∉ example_fields)
  ∧ ∃ rec, row_to_record float_exact datetime_archive example_row example_fields
           = Returned rec
      ∧ rec !! "cloud_groups_raw"
        = Some (VList [VDict (<["height_raw" := VStr "010"]>
                               {[ "type_raw" := VStr "OVC" ]})]).
Proof.
  assert (H : "cloud_groups" ∉ example_fields)
    by (apply (bool_decide_unpack _); by vm_compute).
  split; [exact H|].
  exact (cloud_groups_in_record float_exact datetime_archive example_row example_fields H).
Defined.

Lemma wx_token_shape prev s m :
  match_here wxtoken_re prev s = Some m → wx_token (m_text m).
Proof.
  intros (cs & _ & H & _)%match_here_sound.
  destruct m as [b t a l g]; simpl in *. clear b l g.
  unfold wxtoken_re in H. invert H.
  match goal with H : Matches (Plus _) _ _ _ _ _ |- _ => invert H end.
  match goal with H : Matches (Rep _ _ _) _ _ _ _ _ |- _ =>
    apply rep_class_inv in H as (_ & Hw & Hlen & _) end.
  assert (Hne : m2 ≠ "") by (destruct m2; simpl in *; [lia | done]).
  match goal with H : Matches (Opt _) _ _ _ _ _ |- _ => invert H end.
  - match goal with H : Matches (Cls _) _ _ _ _ _ |- _ => invert H end.
    exists (String c ""), m2. split; [done|]. split; [|done].
    match goal with H : in_class _ _ = true |- _ => rename H into Hc end.
    simpl in Hc. rewrite !orb_true_iff in Hc.
    destruct Hc as [Hc | [Hc | Hc]]; [| |done];
      apply Ascii.eqb_eq in Hc as ->; auto.
  - exists "", m2. auto.
Qed.

(** X12. The tokens of the weather-codes column in the finished record.  The
    key [wxcodes_tokens] is absent when the [wxcodes] value is missing;
    for any other value it holds the list of the tokeniser's matches in
    that value, each an optional sign followed by one or more word
    characters.  No column of the column list can change this key. *)
Theorem wxcodes_tokens_in_record (py_float to_datetime : pyval → outcome pyval)
    (row : row_t) (csv_fieldnames : list string) :
  ∃ rec, row_to_record py_float to_datetime row csv_fieldnames = Returned rec
    ∧ (is_missing (row_get row "wxcodes") = true → rec !! "wxcodes_tokens" = None)
    ∧ (∀ s, row_get row "wxcodes" = Some s → is_missing (Some s) = false →
         ∃ toks, rec !! "wxcodes_tokens" = Some (VList (map VStr toks))
                 ∧ toks = map m_text (findall wxtoken_re s)
                 ∧ Forall wx_token toks).
Proof.
  destruct (row_to_record_unfold py_float to_datetime row csv_fieldnames)
    as (rec2 & parsed & E2 & _ & ->).
  eexists. split; [done|].
  assert (Hkey : fold_left (pass_through row) csv_fieldnames (before_pass row rec2 parsed)
                   !! "wxcodes_tokens"
                 = wx_rec row (set_clouds row rec2) !! "wxcodes_tokens").
  { rewrite pass_through_other by (intros f _; by apply raw_name_last).
    unfold before_pass. by rewrite !lookup_insert_ne. }
  assert (Hbase : set_clouds row rec2 !! "wxcodes_tokens" = None).
  { rewrite set_clouds_other by done.
    rewrite (numeric_loop_reserved py_float row _ _ "wxcodes_tokens" E2)
      by (apply list_elem_of_In; simpl; tauto).
    unfold start_record. by rewrite !lookup_insert_ne. }
  rewrite Hkey. unfold wx_rec. split.
  - intros Hm. rewrite Hm, andb_false_r. by rewrite lookup_insert_ne.
  - intros s -> Hm. rewrite Hm.
    assert (Ht : truthy (Some s) = true) by (by destruct s).
    rewrite Ht. simpl andb. cbv iota. rewrite lookup_insert_eq. simpl default.
    exists (map m_text (findall wxtoken_re s)).
    split; [by rewrite map_map|]. split; [done|].
    apply Forall_forall. intros t Ht'.
    apply list_elem_of_In, in_map_iff in Ht' as (m & <- & Hin%list_elem_of_In).
    apply findall_from_sound in Hin as (prev' & s' & m0 & H0 & <- & _).
    by eapply wx_token_shape.
Qed.

Lemma wxcodes_tokens_in_record_witness :
  ∃ rec, row_to_record float_exact datetime_archive example_row example_fields
         = Returned rec
    ∧ rec !! "wxcodes_tokens" = Some (VList [VStr "-RA"; VStr "BR"]).
Proof.
  destruct (wxcodes_tokens_in_record float_exact datetime_archive
              example_row example_fields) as (rec & Hrec & _ & Htok).
  destruct (Htok "-RA BR" eq_refl eq_refl) as (toks & Hk & -> & _).
  exists rec. split; [exact Hrec | exact Hk].
Defined.

(** *** The keys of the record *)

Lemma set_numeric_keys (row : row_t) (rec rec' : record) col outname cast k :
  set_numeric row rec (col, outname, cast) = Returned rec' →
  is_Some (rec' !! k) →
  is_Some (rec !! k)
  ∨ (is_Some (row !! col) ∧ k ∈ spec_keys (col, outname, cast)).
Proof.
  unfold set_numeric. destruct (has_key row col) eqn:Hk.
  - destruct (parse_numeric_field_returns (row_get row col) cast) as (v & trace & ->).
    simpl. intros [= <-] Hs.
    destruct (decide (k ∈ spec_keys (col, outname, cast))) as [Hin | Hout].
    + right. split; [by apply has_key_true | done].
    + left. simpl in Hout. rewrite !not_elem_of_cons in Hout.
      destruct Hout as (? & ? & ? & _). by rewrite !lookup_insert_ne in Hs.
  - intros [= <-] Hs. by left.
Qed.

Lemma numeric_loop_keys specs (row : row_t) (rec rec' : record) k :
  for_each (set_numeric row) specs rec = Returned rec' →
  is_Some (rec' !! k) →
  is_Some (rec !! k)
  ∨ ∃ col outname cast, (col, outname, cast) ∈ specs ∧ is_Some (row !! col)
                        ∧ k ∈ spec_keys (col, outname, cast).
Proof.
  revert rec. induction specs as [|[[col outname] cast] specs IH]; intros rec.
  - simpl. intros [= <-] Hs. by left.
  - destruct (set_numeric_returns row rec (col, outname, cast)) as (rec1 & E1 & _).
    cbn [for_each]. rewrite E1, bind_returned. intros E Hs.
    destruct (IH rec1 E Hs) as [H1 | (c & o & f & Hin & Hrow & Hk)].
    + destruct (set_numeric_keys row rec rec1 col outname cast k E1 H1)
        as [? | [Hrow Hk]]; [by left|].
      right. exists col, outname, cast. split; [by left | done].
    + right. exists c, o, f. split; [by right | done].
Qed.

Lemma pass_through_keys (row : row_t) fields (rec : record) k :
  is_Some (fold_left (pass_through row) fields rec !! k) →
  is_Some (rec !! k) ∨ ∃ f, f ∈ fields ∧ k = f +:+ "_raw".
Proof.
  revert rec. induction fields as [|f fields IH]; intros rec Hs; [by left|].
  simpl in Hs. destruct (IH _ Hs) as [H1 | (f' & Hin & ->)].
  - unfold pass_through in H1. destruct (has_key rec f); [by left|].
    destruct (decide (f +:+ "_raw" = k)) as [<- | Hne].
    + right. exists f. split; [by left | done].
    + rewrite lookup_insert_ne in H1 by done. by left.
  - right. exists f'. split; [by right | done].
Qed.

(** X13. The record has no other keys than the fixed ones, the three keys of
    a table entry whose column is present in the row, and the [_raw] copy
    of a column of the column list. *)
Theorem record_keys_known (py_float to_datetime : pyval → outcome pyval)
    (row : row_t) (csv_fieldnames : list string) :
  ∃ rec, row_to_record py_float to_datetime row csv_fieldnames = Returned rec
    ∧ ∀ k, is_Some (rec !! k) →
        k ∈ reserved_keys
        ∨ (∃ col outname cast, (col, outname, cast) ∈ numeric_specs py_float
             ∧ is_Some (row !! col) ∧ k ∈ spec_keys (col, outname, cast))
        ∨ (∃ f, f ∈ csv_fieldnames ∧ k = f +:+ "_raw").
Proof.
  destruct (row_to_record_unfold py_float to_datetime row csv_fieldnames)
    as (rec2 & parsed & E2 & _ & ->).
  eexists. split; [done|]. intros k Hs.
  apply pass_through_keys in Hs as [Hs | Hf]; [|by right; right].
  destruct (decide (k ∈ reserved_keys)) as [Hres | Hres]; [by left|].
  right. left. rewrite before_pass_other in Hs by done.
  destruct (numeric_loop_keys _ row _ rec2 k E2 Hs) as [Hs0 | Hnum]; [|done].
  rewrite start_record_other in Hs0 by done. by destruct Hs0.
Qed.

(** X14. The fixed entries of the record hold the row's values verbatim:
    [station], [valid_raw], [wxcodes_raw] and [metar_raw] are [row.get] of
    their column, null for an absent column, and [metar_parsed] is the
    mapping the text extractor returns for the [metar] value.  None of
    them depends on the column list. *)
Theorem fixed_values_verbatim (py_float to_datetime : pyval → outcome pyval)
    (row : row_t) (csv_fieldnames : list string) :
  ∃ rec parsed,
    row_to_record py_float to_datetime row csv_fieldnames = Returned rec
    ∧ parse_metar_text (row_get row "metar") = Returned parsed
    ∧ rec !! "station" = Some (of_opt (row_get row "station"))
    ∧ rec !! "valid_raw" = Some (of_opt (row_get row "valid"))
    ∧ rec !! "wxcodes_raw" = Some (of_opt (row_get row "wxcodes"))
    ∧ rec !! "metar_raw" = Some (of_opt (row_get row "metar"))
    ∧ rec !! "metar_parsed" = Some (VDict parsed).
Proof.
  destruct (fixed_entries py_float to_datetime row csv_fieldnames)
    as (rec & parsed & Hrec & Hp & Hst & Hvr & _ & Hw & Hmr & Hmp).
  by exists rec, parsed.
Qed.

(* ------------------------------------------------------------------ *)
(** ** File processing *)
(* ------------------------------------------------------------------ *)

Lemma io_bind_run {A B} (m : io A) (f : A → io B) (h : list event) :
  (m ≫= f) h = match m h with
               | (Returned a, h') => f a h'
               | (Raised, h') => (Raised, h')
               end.
Proof. reflexivity. Qed.

Lemma io_ret_run {A} (a : A) (h : list event) :
  (mret a : io A) h = (Returned a, h).
Proof. reflexivity. Qed.

Section FileFacts.
Variable py_float : pyval → outcome pyval.
Variable to_datetime : pyval → outcome pyval.
Variable with_suffix_json : string → string.
Variable read_csv : list event → string → outcome (option (list string) * list row_t).
Variable utcnow_iso : list event → string.
Variable write_json : list event → string → pyval → outcome unit.
Variable rglob : list event → string → string → list string.

(** The loop over the rows returns whatever the rows hold: it appends one
    record per row, in order. *)
Lemma records_loop (fieldnames : list string) (rows : list row_t) (acc : list record) :
  ∃ records,
    for_each (λ records row,
        rec ← row_to_record py_float to_datetime row fieldnames;
        Returned (records ++ [rec])) rows acc
    = Returned (acc ++ records)
    ∧ Forall2 (λ row rec,
        row_to_record py_float to_datetime row fieldnames = Returned rec) rows records.
Proof.
  revert acc. induction rows as [|row rows IH]; intros acc.
  - exists []. by rewrite app_nil_r.
  - destruct (row_to_record_unfold py_float to_datetime row fieldnames)
      as (rec2 & parsed & _ & _ & Hrec).
    destruct (IH (acc ++ [fold_left (pass_through row) fieldnames
                            (before_pass row rec2 parsed)]))
      as (records & E & Hall).
    eexists (_ :: records). split.
    + cbn [for_each]. rewrite Hrec, !bind_returned, E. by rewrite <- app_assoc.
    + by constructor.
Qed.

Lemma process_csv_to_json_run (csv_path : string) (json_path : option string)
    (h : list event) fieldnames rows :
  read_csv h csv_path = Returned (fieldnames, rows) →
  ∃ records,
    Forall2 (λ row rec,
      row_to_record py_float to_datetime row (default [] fieldnames) = Returned rec)
      rows records
    ∧ process_csv_to_json py_float to_datetime with_suffix_json read_csv utcnow_iso
        write_json csv_path json_path h
      = let h2 := EvClock :: EvRead csv_path :: h in
        let out := default (with_suffix_json csv_path) json_path in
        let payload := payload_of csv_path (utcnow_iso (EvRead csv_path :: h)) records in
        match write_json h2 out payload with
        | Returned _ =>
            (Returned payload,
             EvPrintOk out (length rows) :: EvWrite out payload true :: h2)
        | Raised => (Raised, EvWrite out payload false :: h2)
        end.
Proof.
  intros Hread.
  destruct (records_loop (default [] fieldnames) rows []) as (records & E & Hall).
  rewrite app_nil_l in E.
  exists records. split; [done|].
  unfold process_csv_to_json.
  rewrite io_bind_run. unfold io_read at 1. rewrite Hread. cbv beta iota.
  rewrite io_bind_run. unfold io_lift at 1. rewrite E. cbv beta iota.
  rewrite io_bind_run. unfold io_now at 1. cbv beta iota.
  rewrite io_bind_run. unfold io_write at 1.
  rewrite (Forall2_length _ _ _ Hall).
  destruct (write_json _ _ _); [|done].
  rewrite io_bind_run. unfold emit at 1. cbv beta iota. done.
Qed.





End FileFacts.







(** The example tree: the unreadable file is reported, the readable one
    gives the only document of the result. *)
Example batch_example :
  ∃ rec,
    row_to_record float_exact datetime_archive example_row example_fields = Returned rec
    ∧ recurse_and_process float_exact datetime_archive example_suffix example_read
        example_clock example_write example_rglob "." "*.csv" []
      = (Returned [payload_of "kjfk.csv" "2024-01-05T13:00:00" [rec]],
         [EvPrintOk "kjfk.json" 1;
          EvWrite "kjfk.json" (payload_of "kjfk.csv" "2024-01-05T13:00:00" [rec]) true;
          EvClock; EvRead "kjfk.csv"; EvPrintError "broken.csv"; EvRead "broken.csv"]).
Proof.
  assert (Hbroken :
    process_csv_to_json float_exact datetime_archive example_suffix example_read
      example_clock example_write "broken.csv" None []
    = (Raised, [EvRead "broken.csv"])).
  { unfold process_csv_to_json. rewrite io_bind_run. reflexivity. }
  destruct (process_csv_to_json_run float_exact datetime_archive example_suffix
              example_read example_clock example_write "kjfk.csv" None
              [EvPrintError "broken.csv"; EvRead "broken.csv"]
              (Some example_fields) [example_row] eq_refl)
    as (records & Hall & Hrun).
  inversion Hall as [|row rec rows' recs' Hrec Hrest]; subst.
  inversion Hrest; subst.
  exists rec. split; [exact Hrec|].
  unfold recurse_and_process, example_rglob. cbn [io_for_each].
  rewrite io_bind_run. unfold io_try at 1. rewrite io_bind_run, Hbroken.
  cbv beta iota. rewrite io_bind_run. unfold emit at 1. cbv beta iota.
  rewrite io_ret_run, io_bind_run. unfold io_try at 1.
  rewrite io_bind_run, Hrun. reflexivity.
Qed.

(** X18. A trace token is never taken for a missing value: the two tests of
    the helpers exclude each other, so their order in the normaliser does
    not matter. *)
Theorem trace_token_not_missing (s : option string) :
  is_trace_token s = true → is_missing s = false.
Proof.
  destruct s as [s|]; [|done]. simpl. intros Ht%eqb_true. by rewrite Ht.
Qed.

Lemma trace_token_not_missing_witness :
  is_trace_token (Some " T ") = true ∧ is_missing (Some " T ") = false.
Proof.
  split; [reflexivity|]. apply (trace_token_not_missing (Some " T ")). reflexivity.
Defined.

Lemma wind_entries_together_witness :
  ∃ out, parse_metar_text (Some "KJFK 21015G25KT 10SM") = Returned out
    ∧ out !! "wind_dir" = Some (VStr "210")
    ∧ ((out !! "wind_dir" = None ∧ out !! "wind_spd_kt" = None
        ∧ out !! "wind_gust_kt" = None)
       ∨ ∃ dir spd,
           out !! "wind_dir" = Some (VStr dir)
           ∧ (dir = "VRB" ∨ (String.length dir = 3 ∧ all_chars is_digit dir = true))
           ∧ out !! "wind_spd_kt" = Some (VInt spd) ∧ (0 ≤ spd ≤ 999)%Z
           ∧ (out !! "wind_gust_kt" = Some VNone
              ∨ ∃ gst, out !! "wind_gust_kt" = Some (VInt gst)
                       ∧ (0 ≤ gst ≤ 999)%Z)).
Proof.
  destruct (wind_entries_together (Some "KJFK 21015G25KT 10SM")) as (out & Hout & Hw).
  exists out. split; [exact Hout|]. split; [|exact Hw].
  assert (E : parse_metar_text (Some "KJFK 21015G25KT 10SM")
              = Returned (<["wind_gust_kt" := VInt 25]>
                         (<["wind_spd_kt" := VInt 15]>
                         (<["visibility_raw" := VStr "10SM"]>
                           {[ "wind_dir" := VStr "210" ]}))))
    by (vm_compute; reflexivity).
  rewrite E in Hout. injection Hout as <-. reflexivity.
Defined.

Lemma visibility_entry_shape_witness :
  ∃ t, VStr "10SM" = VStr t ∧ visibility_token t.
Proof.
  destruct (visibility_entry_shape (Some "KJFK 10SM")) as (out & Hout & Hv).
  apply Hv.
  assert (E : parse_metar_text (Some "KJFK 10SM")
              = Returned {[ "visibility_raw" := VStr "10SM" ]})
    by (vm_compute; reflexivity).
  rewrite E in Hout. injection Hout as <-. reflexivity.
Defined.

Lemma clouds_entry_shape_witness :
  ∃ l, VList [VStr "BKN020CB"; VStr "VV"] = VList l ∧ l ≠ []
    ∧ ∀ e, e ∈ l → ∃ c h, e = VStr (c +:+ h) ∧ In c cloud_covers ∧ cloud_height h.
Proof.
  destruct (clouds_entry_shape (Some "BKN020CB VV")) as (out & Hout & Hv).
  apply Hv.
  assert (E : parse_metar_text (Some "BKN020CB VV")
              = Returned {[ "clouds" := VList [VStr "BKN020CB"; VStr "VV"] ]})
    by (vm_compute; reflexivity).
  rewrite E in Hout. injection Hout as <-. reflexivity.
Defined.

Lemma wx_codes_entry_shape_witness :
  ∃ l, VList [VStr "RA"; VStr "BR"] = VList l ∧ l ≠ []
    ∧ ∀ e, e ∈ l → ∃ code, e = VStr code ∧ In code wx_vocabulary.
Proof.
  destruct (wx_codes_entry_shape (Some "KJFK -RA BR")) as (out & Hout & Hv).
  apply Hv.
  assert (E : parse_metar_text (Some "KJFK -RA BR")
              = Returned {[ "wx_codes" := VList [VStr "RA"; VStr "BR"] ]})
    by (vm_compute; reflexivity).
  rewrite E in Hout. injection Hout as <-. reflexivity.
Defined.
